(** * Naeilum name and fortune engine: a shallow embedding of [app.py]

    The development follows the generation functions of [src/app.py]:
    [get_korean_surname], [generate_korean_names], [romanize_korean_name],
    [get_surname_meaning], [generate_name_summary] and [generate_fortune].

    - Python strings are sequences of code points ([pystr]).
    - The three reference tables are module-level globals of the program;
      here they are the variables of [Section Engine].
    - Calls into Python's [random] module thread an explicit generator
      state; exceptions are an explicit outcome ([Raise]). *)

From Stdlib Require Import QArith Lqa.
From stdpp Require Import gmap list strings.

Local Open Scope nat_scope.

(** ** Python strings *)

(** A Python [str] is a sequence of Unicode code points. *)
Definition char := N.
Definition pystr := list char.

(** Literals are written as UTF-8 text and decoded once: [need] counts the
    continuation bytes still expected, [acc] holds the bits read so far. *)
Fixpoint utf8_decode (bs : list N) (need : nat) (acc : N) : pystr :=
  match bs with
  | [] => []
  | b :: rest =>
      match need with
      | O =>
          if (b <? 128)%N then b :: utf8_decode rest 0 0%N
          else if (b <? 224)%N then utf8_decode rest 1 (b mod 32)%N
          else if (b <? 240)%N then utf8_decode rest 2 (b mod 16)%N
          else utf8_decode rest 3 (b mod 8)%N
      | S O => (acc * 64 + b mod 64)%N :: utf8_decode rest 0 0%N
      | S n => utf8_decode rest n (acc * 64 + b mod 64)%N
      end
  end.

Definition py (s : string) : pystr :=
  utf8_decode (map Ascii.N_of_ascii (String.list_ascii_of_string s)) 0 0%N.

(** [sep.join(parts)] *)
Fixpoint join (sep : pystr) (parts : list pystr) : pystr :=
  match parts with
  | [] => []
  | [p] => p
  | p :: rest => p ++ sep ++ join sep rest
  end.

(** ** Outcomes, generator state and the effect monad *)

Inductive exn := KeyError | IndexError | TypeError | ValueError.

Inductive res (A : Type) :=
  | Ok (a : A)
  | Raise (e : exn).
Arguments Ok {A} a.
Arguments Raise {A} e.

(** The generator: an unbounded supply of raw draws and a read position. *)
Record rng := { seed : nat -> N; pos : nat }.

Definition advance (g : rng) : rng := {| seed := seed g; pos := S (pos g) |}.
Definition peek (g : rng) : N := seed g (pos g).

Definition M (A : Type) : Type := rng -> res (A * rng).

Definition ret {A} (a : A) : M A := fun g => Ok (a, g).
Definition raise {A} (e : exn) : M A := fun _ => Raise e.
Definition bind {A B} (m : M A) (k : A -> M B) : M B :=
  fun g => match m g with
           | Ok (a, g') => k a g'
           | Raise e => Raise e
           end.

Notation "x <- c ;; k" := (bind c (fun x => k))
  (at level 100, c at next level, right associativity).

(** [d[key]] on a field that may be absent, and [seq[i]]. *)
Definition getitem {A} (field : option A) : M A :=
  match field with
  | Some v => ret v
  | None => raise KeyError
  end.

Definition index {A} (seq : list A) (i : nat) : M A :=
  match seq !! i with
  | Some v => ret v
  | None => raise IndexError
  end.

(** ** The [random] module *)

Definition next_draw : M N := fun g => Ok (peek g, advance g).

(** [_randbelow(n)]: an integer in [0, n). *)
Definition randbelow (n : nat) : M nat :=
  d <- next_draw ;; ret (N.to_nat (d mod N.of_nat n)).

(** [random.random()]: 53 random bits scaled into [0, 1). A draw of the
    generator is one call of [_randbelow] or of [random()]. *)
Definition random : M Q :=
  d <- next_draw ;;
  ret (inject_Z (Z.of_N (d mod 2 ^ 53)) / inject_Z (2 ^ 53))%Q.

(** [random.uniform(a, b)] is [a + (b - a) * random()]. The sum and the
    product are taken here on exact rationals; CPython takes them in
    double precision, so its value can differ from this one by a rounding
    error. What is stated of the weighted walk below is therefore stated
    for an arbitrary draw, not for this value. *)
Definition uniform (a b : Q) : M Q :=
  u <- random ;; ret (a + (b - a) * u)%Q.

(** [random.choice(seq)] raises [IndexError] on an empty sequence. *)
Definition choice {A} (seq : list A) : M A :=
  match seq with
  | [] => raise IndexError
  | _ => i <- randbelow (length seq) ;; index seq i
  end.

(** The population size up to which [random.sample] uses its pool
    algorithm when [k <= 5] ([setsize] in CPython's [random.py]). *)
Definition setsize : nat := 21.

(** [random.sample(population, k)], the pool algorithm: at step [i] a
    position [j] below [n - i] is drawn, [pool[j]] is taken and
    overwritten with [pool[n - i - 1]]. [m] is [n - i], [r] the number of
    elements still to take. CPython runs this algorithm for a population of
    at most [setsize] elements; a larger population is sampled by drawing
    positions again until they are distinct, which returns elements of
    distinct positions as well but can use more draws. What is stated
    below of the number of draws is stated for at most [setsize]
    elements. *)
Fixpoint sample_pool {A} (pool : list A) (m r : nat) : M (list A) :=
  match r with
  | O => ret []
  | S r' =>
      j <- randbelow m ;;
      x <- index pool j ;;
      y <- index pool (m - 1) ;;
      rest <- sample_pool (<[j := y]> pool) (m - 1) r' ;;
      ret (x :: rest)
  end.

Definition sample {A} (population : list A) (k : nat) : M (list A) :=
  if length population <? k then raise ValueError
  else sample_pool population (length population) k.

(** ** Data model *)

(** JSON scalars, as far as the [common] flag needs them. *)
Inductive pyval :=
  | PBool (b : bool)
  | PInt (z : Z)
  | PStr (s : pystr).

(** [v == 1] in Python: the integer 1, and also [True]. *)
Definition py_eq_one (v : pyval) : bool :=
  match v with
  | PBool b => b
  | PInt z => (z =? 1)%Z
  | PStr _ => false
  end.

(** An entry of the surname table; a key of the JSON object may be absent. *)
Record surname := {
  sn_korean : option pystr;
  sn_hanja : option pystr;
  sn_weight : option Q
}.

(** An entry of the syllable table. *)
Record syllable := {
  sy_syllable : option pystr;
  sy_hanja : option pystr;
  sy_meaning : option pystr;
  sy_tag : option pystr;
  sy_common : option pyval
}.

Record family := {
  fam_korean : pystr;
  fam_hanja : pystr;
  fam_meaning : pystr
}.

Record given := {
  gv_syllable : pystr;
  gv_hanja : pystr;
  gv_meaning : pystr
}.

Record candidate := {
  name_kr : pystr;
  name_en : pystr;
  hanja : list pystr;
  family_name : family;
  given_name : list given;
  summary : pystr
}.

Record opts := {
  o_tags : option (list pystr);
  o_gender : option pystr
}.

Record fortune := {
  date : pystr;
  cosmic_cookie : pystr;
  lucky_snack : pystr;
  deeper_look : pystr
}.

(** Dictionaries whose key order is observable ([list(d.keys())]) are kept
    in insertion order. *)
Fixpoint alookup {K V} `{EqDecision K} (k : K) (d : list (K * V)) : option V :=
  match d with
  | [] => None
  | (k', v) :: rest => if decide (k' = k) then Some v else alookup k rest
  end.

Definition keys {K V} (d : list (K * V)) : list K := map fst d.

(** ** Pure table lookups *)

(** [romanization_map] of [romanize_korean_name]. *)
Definition romanization_map : gmap pystr pystr :=
  list_to_map
    [ (py "송", py "Song"); (py "이", py "Lee"); (py "김", py "Kim"); (py "박", py "Park");
      (py "최", py "Choi"); (py "정", py "Jung"); (py "한", py "Han"); (py "서", py "Seo");
      (py "강", py "Kang"); (py "조", py "Cho"); (py "윤", py "Yoon"); (py "장", py "Jang");
      (py "임", py "Lim"); (py "홍", py "Hong"); (py "신", py "Shin"); (py "원", py "Won");
      (py "백", py "Baek"); (py "문", py "Moon"); (py "민", py "Min"); (py "양", py "Yang");
      (py "유", py "Yoo"); (py "남", py "Nam"); (py "노", py "Noh"); (py "고", py "Ko");
      (py "구", py "Koo"); (py "류", py "Ryu"); (py "라", py "Ra"); (py "안", py "Ahn");
      (py "오", py "Oh"); (py "태", py "Tae"); (py "도", py "Do"); (py "천", py "Cheon");
      (py "배", py "Bae"); (py "변", py "Byun"); (py "황", py "Hwang"); (py "전", py "Jeon") ].

(** [given_romanization] of [romanize_korean_name]. *)
Definition given_romanization : gmap pystr pystr :=
  list_to_map
    [ (py "월", py "Wil"); (py "선", py "Seon"); (py "명", py "Myung"); (py "영", py "Young");
      (py "지", py "Ji"); (py "현", py "Hyun"); (py "용", py "Yong"); (py "준", py "Jun");
      (py "윤", py "Yoon"); (py "하", py "Ha"); (py "유", py "Yu"); (py "연", py "Yeon");
      (py "우", py "Woo"); (py "은", py "Eun"); (py "민", py "Min"); (py "정", py "Jung");
      (py "성", py "Sung"); (py "원", py "Won"); (py "석", py "Seok"); (py "서", py "Seo");
      (py "휘", py "Hwi"); (py "혁", py "Hyuk"); (py "채", py "Chae"); (py "소", py "So");
      (py "예", py "Ye"); (py "규", py "Kyu"); (py "도", py "Do"); (py "경", py "Kyung");
      (py "강", py "Kang"); (py "건", py "Gun"); (py "호", py "Ho"); (py "림", py "Rim");
      (py "해", py "Hae"); (py "솔", py "Sol") ].

(** One iteration of [for char in given_name]: a character is a string of
    length one. *)
Definition romanize_char (c : char) : pystr :=
  default [c] (given_romanization !! [c]).

Definition romanize_korean_name (surname given_name : pystr) : pystr :=
  let surname_roman := default surname (romanization_map !! surname) in
  let given_parts := map romanize_char given_name in
  surname_roman ++ py " " ++ join (py "-") given_parts.

Definition meanings : gmap pystr pystr :=
  list_to_map
    [ (py "宋", py "Pine tree - symbol of longevity and resilience");
      (py "李", py "Plum tree - symbol of beauty and perseverance");
      (py "金", py "Gold - symbol of value and nobility");
      (py "朴", py "Simple wood - symbol of honesty and humility");
      (py "崔", py "High mountain - symbol of greatness");
      (py "鄭", py "Upright - symbol of righteousness");
      (py "韓", py "Great nation - symbol of leadership");
      (py "徐", py "Slow and steady - symbol of patience");
      (py "姜", py "Ginger - symbol of strength and vitality") ].

Definition get_surname_meaning (hanja : pystr) : pystr :=
  default (py "Noble family lineage") (meanings !! hanja).

Definition generate_name_summary (syllables : list syllable) : pystr :=
  let meanings := map (fun s => default [] (sy_meaning s)) syllables in
  match meanings with
  | [m0; m1] => m0 ++ py "하고 " ++ m1 ++ py "한 사람"
  | _ => py "품격 있고 아름다운 이름"
  end.

(** ** Weighted walk over a surname list (lines 102-108) *)

(** [for surname, weight in zip(surname_options, weights)] with the
    running [cumulative]; [None] when the loop falls through. *)
Fixpoint weighted_walk (pairs : list (surname * Q)) (cumulative rand : Q)
  : option surname :=
  match pairs with
  | [] => None
  | (s, weight) :: rest =>
      let cumulative := (cumulative + weight)%Q in
      if Qle_bool rand cumulative then Some s
      else weighted_walk rest cumulative rand
  end.

Definition surname_weights (surname_options : list surname) : list Q :=
  map (fun s => default 1%Q (sn_weight s)) surname_options.

(** [sum(weights)] *)
Definition sum_weights (weights : list Q) : Q :=
  fold_left Qplus weights 0%Q.

(** The loop and the statement after it, for a given draw [rand]. *)
Definition weighted_pick (surname_options : list surname) (rand : Q) : M surname :=
  let weights := surname_weights surname_options in
  match weighted_walk (zip surname_options weights) 0%Q rand with
  | Some s => ret s
  | None => index surname_options 0
  end.

(** Lines 97-108 as a whole. *)
Definition weighted_select (surname_options : list surname) : M surname :=
  let weights := surname_weights surname_options in
  let total_weight := sum_weights weights in
  rand <- uniform 0%Q total_weight ;;
  weighted_pick surname_options rand.

(** ** Grouping the syllable pool by tag (lines 143-148) *)

Fixpoint bucket_append (tag : option pystr) (s : syllable)
    (d : list (option pystr * list syllable)) : list (option pystr * list syllable) :=
  match d with
  | [] => [(tag, [s])]
  | (k, v) :: rest =>
      if decide (k = tag) then (k, v ++ [s]) :: rest
      else (k, v) :: bucket_append tag s rest
  end.

Definition group_by_tag (data : list syllable) : list (option pystr * list syllable) :=
  fold_left (fun d s => bucket_append (sy_tag s) s d) data [].

(** ** Syllable selection (lines 152-169) *)

Definition is_common (s : syllable) : bool :=
  py_eq_one (default (PInt 0) (sy_common s)).

(** The [for tag in random.sample(...)] loop body, over the chosen tags. *)
Fixpoint pick_tagged (syllables_by_tag : list (option pystr * list syllable))
    (chosen : list pystr) (selected_syllables : list syllable) : M (list syllable) :=
  match chosen with
  | [] => ret selected_syllables
  | tag :: rest =>
      match alookup (Some tag) syllables_by_tag with
      | Some syllable_options =>
          let common_syllables := filter (fun s => is_common s = true) syllable_options in
          selected <- match common_syllables with
                      | [] => choice syllable_options
                      | _ => choice common_syllables
                      end ;;
          pick_tagged syllables_by_tag rest (selected_syllables ++ [selected])
      | None => pick_tagged syllables_by_tag rest selected_syllables
      end
  end.

(** [while len(selected_syllables) < 2]: every iteration appends one entry,
    so the loop runs [2 - len(selected_syllables)] times; [missing] is that
    number. *)
Fixpoint fill_missing (syllables_by_tag : list (option pystr * list syllable))
    (missing : nat) (selected_syllables : list syllable) : M (list syllable) :=
  match missing with
  | O => ret selected_syllables
  | S missing' =>
      tag <- choice (keys syllables_by_tag) ;;
      bucket <- getitem (alookup tag syllables_by_tag) ;;
      s <- choice bucket ;;
      fill_missing syllables_by_tag missing' (selected_syllables ++ [s])
  end.

Definition select_syllables (syllables_by_tag : list (option pystr * list syllable))
    (tags : list pystr) : M (list syllable) :=
  chosen <- sample tags (min 2 (length tags)) ;;
  selected_syllables <- pick_tagged syllables_by_tag chosen [] ;;
  fill_missing syllables_by_tag (2 - length selected_syllables) selected_syllables.

(** [[f(s) for s in seq]] where [f] may raise. *)
Fixpoint map_m {A B} (f : A -> M B) (l : list A) : M (list B) :=
  match l with
  | [] => ret []
  | x :: rest => y <- f x ;; ys <- map_m f rest ;; ret (y :: ys)
  end.

(** Lines 172-192: the candidate built from the selected syllables. *)
Definition make_candidate (surname : surname) (selected_syllables : list syllable)
  : M candidate :=
  let two := take 2 selected_syllables in
  syls <- map_m (fun s => getitem (sy_syllable s)) two ;;
  let given_name_kr := concat syls in
  given_name_hanja <- map_m (fun s => getitem (sy_hanja s)) two ;;
  korean <- getitem (sn_korean surname) ;;
  shanja <- getitem (sn_hanja surname) ;;
  given <- map_m (fun s =>
             a <- getitem (sy_syllable s) ;;
             b <- getitem (sy_hanja s) ;;
             c <- getitem (sy_meaning s) ;;
             ret {| gv_syllable := a; gv_hanja := b; gv_meaning := c |}) two ;;
  ret {| name_kr := korean ++ given_name_kr;
         name_en := romanize_korean_name korean given_name_kr;
         hanja := [shanja] ++ given_name_hanja;
         family_name := {| fam_korean := korean; fam_hanja := shanja;
                           fam_meaning := get_surname_meaning shanja |};
         given_name := given;
         summary := generate_name_summary two |}.

(** [for _ in range(n)]: select, build, append. *)
Fixpoint generate_loop (syllables_by_tag : list (option pystr * list syllable))
    (tags : list pystr) (surname : surname) (n : nat) (candidates : list candidate)
  : M (list candidate) :=
  match n with
  | O => ret candidates
  | S n' =>
      selected_syllables <- select_syllables syllables_by_tag tags ;;
      candidate <- make_candidate surname selected_syllables ;;
      generate_loop syllables_by_tag tags surname n' (candidates ++ [candidate])
  end.

(** The pre-authored candidate of lines 124-138. *)
Definition pinned_candidate (surname : surname) : M candidate :=
  shanja <- getitem (sn_hanja surname) ;;
  korean <- getitem (sn_korean surname) ;;
  ret {| name_kr := py "송월선";
         name_en := py "Song Wil-Seon";
         hanja := [shanja; py "蔚"; py "宣"];
         family_name := {| fam_korean := korean; fam_hanja := shanja;
                           fam_meaning := py "Pine tree - symbol of longevity and resilience" |};
         given_name := [ {| gv_syllable := py "월"; gv_hanja := py "蔚";
                            gv_meaning := py "무성하고 아름다운" |};
                         {| gv_syllable := py "선"; gv_hanja := py "宣";
                            gv_meaning := py "베풀고 선포하는" |} ];
         summary := py "무성한 아름다움을 널리 베푸는 사람" |}.

Definition smith_entry : surname :=
  {| sn_korean := Some (py "송"); sn_hanja := Some (py "宋"); sn_weight := None |}.

Definition builtin_default : list surname :=
  [ {| sn_korean := Some (py "이"); sn_hanja := Some (py "李"); sn_weight := None |} ].

Definition cosmic_cookies : list pystr :=
  [ py "A squirrel is burying a nut for its future self. What small, wonderful thing can you do today that 'Future You' will thank you for?";
    py "The universe is conspiring to bring you exactly what you need. Stay open to unexpected meetings.";
    py "Your energy today is like a gentle breeze - soft but capable of moving mountains of doubt.";
    py "Today's plot twist: the thing you've been worrying about will resolve itself in the most unexpected way.";
    py "The stars suggest you trust your first instinct today. Your intuition is particularly sharp." ].

Definition lucky_snacks : list pystr :=
  [ py "Anything with chocolate. Seriously.";
    py "Something crunchy - it will spark creativity.";
    py "A warm drink will bring clarity to your thoughts.";
    py "Fresh fruit will energize your afternoon.";
    py "Share a snack with someone - double the luck!" ].

(** ** The engine over its reference tables *)

Section Engine.

(** [str.upper], a built-in of the language. *)
Variable upper : pystr -> pystr.

(** The tables loaded at import time; a failed load leaves an empty one. *)
Variable SYLLABLES_DATA : list syllable.
Variable FORTUNES_DATA : list (pystr * list pystr).
Variable SURNAMES_DATA : gmap pystr (list surname).

Definition get_korean_surname (last_name : pystr) : M surname :=
  match last_name with
  | [] => choice (default builtin_default (SURNAMES_DATA !! py "DEFAULT"))
  | c :: _ =>
      let initial := upper [c] in
      if decide (upper last_name = py "SMITH") then ret smith_entry
      else
        (* [d.get(initial, d.get("DEFAULT"))]: [None] when both are absent *)
        let surname_options :=
          match SURNAMES_DATA !! initial with
          | Some l => Some l
          | None => SURNAMES_DATA !! py "DEFAULT"
          end in
        match surname_options with
        | None => raise TypeError
        | Some surname_options => weighted_select surname_options
        end
  end.

Definition generate_korean_names (first_name last_name : pystr)
    (options : option opts) : M (list candidate) :=
  let options := default {| o_tags := None; o_gender := None |} options in
  let tags := default [py "밝음"; py "지혜"] (o_tags options) in
  let gender := default (py "neutral") (o_gender options) in
  surname <- get_korean_surname last_name ;;
  candidates <-
    (if decide (upper first_name = py "WILSON" /\ upper last_name = py "SMITH")
     then c <- pinned_candidate surname ;; ret [c]
     else ret []) ;;
  let syllables_by_tag := group_by_tag SYLLABLES_DATA in
  candidates <- generate_loop syllables_by_tag tags surname
                  (3 - length candidates) candidates ;;
  ret (take 3 candidates).

(** [today] is the reading of the clock, [datetime.now()] formatted as
    [%Y/%m/%d]; it is used only when no date is passed. *)
Definition generate_fortune (tags : list pystr) (date : option pystr)
    (today : pystr) : M fortune :=
  let date := default today date in
  let available_tags :=
    filter (fun tag => is_Some (alookup tag FORTUNES_DATA)) tags in
  let available_tags :=
    match available_tags with
    | [] => keys FORTUNES_DATA
    | _ => available_tags
    end in
  tag <- choice available_tags ;;
  messages <- getitem (alookup tag FORTUNES_DATA) ;;
  deeper_look <- choice messages ;;
  cosmic_cookie <- choice cosmic_cookies ;;
  lucky_snack <- choice lucky_snacks ;;
  ret {| date := date; cosmic_cookie := cosmic_cookie;
         lucky_snack := lucky_snack; deeper_look := deeper_look |}.

End Engine.

(** ** Sample data for the examples *)

(** [str.upper] restricted to ASCII letters. *)
Definition ascii_upper (s : pystr) : pystr :=
  map (fun c => if ((97 <=? c) && (c <=? 122))%N then (c - 32)%N else c) s.

Definition mk_surname (k h : string) (w : option Q) : surname :=
  {| sn_korean := Some (py k); sn_hanja := Some (py h); sn_weight := w |}.

Definition kim : surname := mk_surname "김" "金" (Some 3%Q).
Definition lee : surname := mk_surname "이" "李" (Some 1%Q).
Definition jung : surname := mk_surname "정" "鄭" (Some 2%Q).
Definition jang : surname := mk_surname "장" "張" None.



Definition demo_surnames : gmap pystr (list surname) :=
  list_to_map [ (py "DEFAULT", [kim; lee]); (py "J", [jung; jang]) ].

Definition mk_syllable (s h m : string) (t : option string) (c : option pyval) : syllable :=
  {| sy_syllable := Some (py s); sy_hanja := Some (py h); sy_meaning := Some (py m);
     sy_tag := py <$> t; sy_common := c |}.

Definition demo_syllables : list syllable :=
  [ mk_syllable "명" "明" "밝은" (Some "밝음") (Some (PInt 1));
    mk_syllable "현" "賢" "어진" (Some "지혜") (Some (PInt 0));
    mk_syllable "지" "智" "슬기로운" (Some "지혜") (Some (PBool true));
    mk_syllable "해" "海" "넓은" None None ].

Definition demo_fortunes : list (pystr * list pystr) :=
  [ (py "밝음", [py "Light finds you."; py "Keep the window open."]);
    (py "지혜", [py "Ask one more question."]) ].

Definition demo_rng : rng := {| seed := fun i => N.of_nat (7 * i + 3); pos := 0 |}.

(** A generator whose every draw is [d]. *)
Definition const_rng (d : N) : rng := {| seed := fun _ => d; pos := 0 |}.

(** ** Notions used in the statements *)

#[global] Instance Q_eq_dec : EqDecision Q.
Proof. solve_decision. Defined.

#[global] Instance surname_eq_dec : EqDecision surname.
Proof. solve_decision. Defined.




(** The unit draw that [random.random()] makes in state [g]. *)
Definition unit_draw (g : rng) : Q :=
  (inject_Z (Z.of_N (peek g mod 2 ^ 53)) / inject_Z (2 ^ 53))%Q.

(** Selection for an empty family name as the specification words it:
    weighted selection over the [DEFAULT] list. *)
Definition spec_empty_name_selection (SURNAMES_DATA : gmap pystr (list surname))
  : M surname :=
  weighted_select (default builtin_default (SURNAMES_DATA !! py "DEFAULT")).

(** What a computation returns when every draw is [d], and how many of the
    draws [0 .. n-1] make it return [s]. *)
Definition outcome_at {A} (m : M A) (d : N) : option A :=
  match m (const_rng d) with
  | Ok (a, _) => Some a
  | Raise _ => None
  end.

Definition hits (m : M surname) (s : surname) (n : nat) : nat :=
  length (filter (fun d => outcome_at m (N.of_nat d) = Some s) (seq 0 n)).

(** The schema of a syllable entry: the keys read with [s[...]] exist. *)
Definition syllable_wf (s : syllable) : Prop :=
  is_Some (sy_syllable s) /\ is_Some (sy_hanja s) /\ is_Some (sy_meaning s).

(** The shape of a candidate built for the surname hanja [h]. *)
Definition candidate_shape (h : option pystr) (c : candidate) : Prop :=
  length (given_name c) = 2 /\ length (hanja c) = 3 /\ head (hanja c) = h.

(** Every tag of the fortune table has at least one message. *)
Definition fortunes_wf (FORTUNES_DATA : list (pystr * list pystr)) : Prop :=
  FORTUNES_DATA <> [] /\ Forall (fun kv => kv.2 <> []) FORTUNES_DATA.

(** [s] is an entry of the pool, found in the bucket of one of its tags. *)
Definition from_pool (SYLLABLES_DATA : list syllable) (s : syllable) : Prop :=
  s ∈ SYLLABLES_DATA
  /\ exists tag bucket, (tag, bucket) ∈ group_by_tag SYLLABLES_DATA /\ s ∈ bucket.

(** Every bucket of a tag-indexed pool is non-empty and holds entries
    satisfying [P]. *)
Definition buckets_ok (P : syllable -> Prop)
    (d : list (option pystr * list syllable)) : Prop :=
  Forall (fun kv => kv.2 <> [] /\ Forall P kv.2) d.

(** ** Port search (lines 375-384) *)

(** What [find_free_port] hands back: a port number, or the
    [OverflowError] that [bind] raises for a port above 65535, which the
    [except OSError] clause does not catch. *)
Inductive port_outcome :=
  | Port (port : N)
  | Overflow.

(** [for port in range(port, port + n)]: [try_bind port] tells whether
    [s.bind(('', port))] succeeds ([true]) or raises [OSError] ([false]). *)
Fixpoint scan_ports (try_bind : N -> bool) (port : N) (n : nat) : option port_outcome :=
  match n with
  | O => None
  | S n' =>
      if (65535 <? port)%N then Some Overflow
      else if try_bind port then Some (Port port)
      else scan_ports try_bind (port + 1)%N n'
  end.

Definition find_free_port (try_bind : N -> bool) (start_port max_port : N)
  : port_outcome :=
  match scan_ports try_bind start_port (N.to_nat (max_port + 1 - start_port)) with
  | Some r => r
  | None => Port start_port
  end.

(** ** Further notions used in the statements *)

(** [s] may be the entry picked for [tag]: it is an entry of the pool with
    that tag, and a common one whenever the pool has a common entry with
    that tag. *)
Definition picked_for (SYLLABLES_DATA : list syllable) (tag : pystr) (s : syllable)
  : Prop :=
  s ∈ SYLLABLES_DATA
  /\ sy_tag s = Some tag
  /\ ((exists s', s' ∈ SYLLABLES_DATA /\ sy_tag s' = Some tag /\ is_common s' = true)
      -> is_common s = true).

(** The tags of [chosen] that occur in the pool. *)
Definition present_tags (SYLLABLES_DATA : list syllable) (chosen : list pystr)
  : list pystr :=
  filter (fun t => Some t ∈ map sy_tag SYLLABLES_DATA) chosen.

(** A candidate whose derived fields agree with its [family_name] and
    [given_name]. *)
Definition coherent (c : candidate) : Prop :=
  let given_kr := concat (map gv_syllable (given_name c)) in
  name_kr c = fam_korean (family_name c) ++ given_kr
  /\ name_en c = romanize_korean_name (fam_korean (family_name c)) given_kr
  /\ hanja c = fam_hanja (family_name c) :: map gv_hanja (given_name c)
  /\ fam_meaning (family_name c) = get_surname_meaning (fam_hanja (family_name c)).

(** A candidate whose summary is the sentence made of its two meanings. *)
Definition summary_of_meanings (c : candidate) : Prop :=
  exists g1 g2,
    given_name c = [g1; g2]
    /\ summary c = gv_meaning g1 ++ py "하고 " ++ gv_meaning g2 ++ py "한 사람".


(** The list the non-empty-name path selects from. *)
Definition options_for (upper : pystr -> pystr)
    (SURNAMES_DATA : gmap pystr (list surname)) (last_name : pystr)
  : option (list surname) :=
  match last_name with
  | [] => None
  | c :: _ =>
      match SURNAMES_DATA !! upper [c] with
      | Some l => Some l
      | None => SURNAMES_DATA !! py "DEFAULT"
      end
  end.

(** The entry [gv] of a [given_name] list copies the pool entry [s]. *)
Definition copies (s : syllable) (gv : given) : Prop :=
  sy_syllable s = Some (gv_syllable gv)
  /\ sy_hanja s = Some (gv_hanja gv)
  /\ sy_meaning s = Some (gv_meaning gv).

(** What the generation loop appends for the surname [sn]. *)
Definition generated_for (SYLLABLES_DATA : list syllable) (sn : surname)
    (c : candidate) : Prop :=
  sn_korean sn = Some (fam_korean (family_name c))
  /\ sn_hanja sn = Some (fam_hanja (family_name c))
  /\ coherent c
  /\ summary_of_meanings c
  /\ Forall (fun gv => exists s, s ∈ SYLLABLES_DATA /\ copies s gv) (given_name c).

(** The tag list a call of [generate_korean_names] works with (lines
    112-115). *)
Definition effective_tags (options : option opts) : list pystr :=
  default [py "밝음"; py "지혜"]
    (o_tags (default {| o_tags := None; o_gender := None |} options)).

(** ASCII letters, as code points. *)
Definition is_letter (c : char) : bool :=
  (((65 <=? c) && (c <=? 90)) || ((97 <=? c) && (c <=? 122)))%N.

(** A romanized part: a non-empty string of ASCII letters. *)
Definition clean_part (v : pystr) : Prop := v <> [] /\ forallb is_letter v = true.

#[global] Instance clean_part_dec v : Decision (clean_part v).
Proof. unfold clean_part. apply _. Defined.

(** The characters of a display name: ASCII letters, space and hyphen. *)
Definition display_char (c : char) : Prop :=
  is_letter c = true \/ c = 32%N \/ c = 45%N.

(** ** Properties of the monad and of the [random] model *)

Lemma bind_ok {A B} (m : M A) (k : A -> M B) g b g' :
  bind m k g = Ok (b, g') <-> exists a g1, m g = Ok (a, g1) /\ k a g1 = Ok (b, g').
Proof.
  unfold bind. split.
  - destruct (m g) as [[a g1]|e]; [eauto | discriminate].
  - intros (a & g1 & -> & Hk). exact Hk.
Qed.

Lemma bind_step {A B} (m : M A) (k : A -> M B) g a g1 :
  m g = Ok (a, g1) -> bind m k g = k a g1.
Proof. unfold bind. now intros ->. Qed.

Ltac inv_bind H :=
  let a := fresh "a" in let g := fresh "g" in let E := fresh "E" in
  apply bind_ok in H as (a & g & E & H).

Lemma ret_ok {A} (a b : A) g g' : ret a g = Ok (b, g') -> b = a /\ g' = g.
Proof. unfold ret. intros [= -> ->]. auto. Qed.

Lemma randbelow_lt n g :
  0 < n -> exists i, randbelow n g = Ok (i, advance g) /\ i < n
                     /\ i = N.to_nat (peek g mod N.of_nat n).
Proof.
  intros Hn. eexists. split; [reflexivity|]. split; [|reflexivity].
  assert (peek g mod N.of_nat n < N.of_nat n)%N by (apply N.mod_lt; lia). lia.
Qed.

Lemma choice_ok {A} (l : list A) g :
  l <> [] ->
  exists x, choice l g = Ok (x, advance g) /\ x ∈ l
            /\ l !! N.to_nat (peek g mod N.of_nat (length l)) = Some x.
Proof.
  intros Hl.
  assert (Hlen : 0 < length l) by (destruct l; simpl; [congruence | lia]).
  destruct (randbelow_lt _ g Hlen) as (i & Hr & Hi & Heq).
  destruct (lookup_lt_is_Some_2 l i Hi) as [x Hx].
  exists x. split; [|split].
  - destruct l; [congruence|]. unfold choice.
    rewrite (bind_step _ _ _ _ _ Hr). unfold index. now rewrite Hx.
  - apply list_elem_of_lookup. eauto.
  - now rewrite <- Heq.
Qed.

Lemma choice_inv {A} (l : list A) g x g' :
  choice l g = Ok (x, g') -> x ∈ l /\ g' = advance g.
Proof.
  intros H. destruct (decide (l = [])) as [->|Hl]; [discriminate|].
  destruct (choice_ok l g Hl) as (y & Hy & Hin & _).
  rewrite Hy in H. injection H as -> ->. auto.
Qed.

Lemma sample_pool_ok {A} (r : nat) : forall (pool : list A) m g,
  r <= m -> m <= length pool ->
  exists l g', sample_pool pool m r g = Ok (l, g') /\ length l = r.
Proof.
  induction r as [|r IH]; intros pool m g Hr Hm; simpl.
  - eexists _, _. split; reflexivity.
  - destruct (randbelow_lt m g ltac:(lia)) as (j & Hj & Hlt & _).
    destruct (lookup_lt_is_Some_2 pool j ltac:(lia)) as [x Hx].
    destruct (lookup_lt_is_Some_2 pool (m - 1) ltac:(lia)) as [y Hy].
    destruct (IH (<[j := y]> pool) (m - 1) (advance g)) as (l & g' & Hl & Hlen);
      [lia | rewrite length_insert; lia |].
    exists (x :: l), g'. split; [|simpl; lia].
    rewrite (bind_step _ _ _ _ _ Hj). unfold index at 1. rewrite Hx.
    unfold bind at 1, ret at 1. unfold index at 1. rewrite Hy.
    unfold bind at 1, ret at 1. rewrite (bind_step _ _ _ _ _ Hl). reflexivity.
Qed.

Lemma sample_ok {A} (population : list A) k g :
  k <= length population ->
  exists l g', sample population k g = Ok (l, g') /\ length l = k.
Proof.
  intros Hk. unfold sample.
  destruct (Nat.ltb_spec (length population) k); [lia|].
  now apply sample_pool_ok.
Qed.

Lemma sample_pool_length {A} (r : nat) : forall (pool : list A) m g l g',
  sample_pool pool m r g = Ok (l, g') -> length l = r.
Proof.
  induction r as [|r IH]; intros pool m g l g' H; simpl in H.
  - apply ret_ok in H as [-> _]. reflexivity.
  - inv_bind H. inv_bind H. inv_bind H. inv_bind H.
    apply ret_ok in H as [-> _]. simpl. f_equal. eauto.
Qed.

Lemma sample_length {A} (population : list A) k g l g' :
  sample population k g = Ok (l, g') -> length l = k.
Proof.
  unfold sample. destruct (length population <? k); [discriminate|].
  apply sample_pool_length.
Qed.

Lemma map_m_length {A B} (f : A -> M B) (l : list A) : forall g ys g',
  map_m f l g = Ok (ys, g') -> length ys = length l.
Proof.
  induction l as [|x l IH]; intros g ys g' H; simpl in H.
  - apply ret_ok in H as [-> _]. reflexivity.
  - inv_bind H. inv_bind H. apply ret_ok in H as [-> _]. simpl. f_equal. eauto.
Qed.

(** ** The weighted walk *)

Lemma weighted_walk_char (pairs : list (surname * Q)) : forall (c rand : Q),
  match weighted_walk pairs c rand with
  | Some s =>
      exists i w, pairs !! i = Some (s, w)
        /\ (rand <= fold_left Qplus (take (S i) (pairs.*2)) c)%Q
        /\ forall j, j < i -> ~ (rand <= fold_left Qplus (take (S j) (pairs.*2)) c)%Q
  | None =>
      forall j, j < length pairs ->
                ~ (rand <= fold_left Qplus (take (S j) (pairs.*2)) c)%Q
  end.
Proof.
  induction pairs as [|[s w] rest IH]; intros c rand; simpl.
  - intros j Hj. lia.
  - destruct (Qle_bool rand (c + w)) eqn:Hle.
    + exists 0, w. split; [reflexivity|]. split.
      * simpl. rewrite ?take_0; simpl. simpl. now apply Qle_bool_iff.
      * intros j Hj. lia.
    + assert (Hn : ~ (rand <= c + w)%Q).
      { intros H. apply Qle_bool_iff in H. congruence. }
      specialize (IH (c + w)%Q rand).
      destruct (weighted_walk rest (c + w) rand) as [s'|].
      * destruct IH as (i & w' & Hi & Hreach & Hfirst).
        exists (S i), w'. split; [exact Hi|]. split; [exact Hreach|].
        intros [|j] Hj; simpl.
        -- rewrite ?take_0; simpl. exact Hn.
        -- apply Hfirst. lia.
      * intros [|j] Hj; simpl.
        -- rewrite ?take_0; simpl. exact Hn.
        -- apply IH. lia.
Qed.


Lemma zip_weights_lookup (surname_options : list surname) i s w :
  zip surname_options (surname_weights surname_options) !! i = Some (s, w) ->
  surname_options !! i = Some s.
Proof.
  intros H. apply lookup_zip_with_Some in H as (x & y & [= -> ->] & Hx & _).
  exact Hx.
Qed.



(** ** Surname resolution *)

(** C3 (amended). For an empty family name the entry is picked by
    [random.choice]: it is the entry at position [draw mod len] of the
    [DEFAULT] list (of the built-in one-entry list when the table has no
    [DEFAULT] key); the weights play no part. *)
Theorem C3_empty_name_uniform_choice
    (upper : pystr -> pystr) (SURNAMES_DATA : gmap pystr (list surname)) (g : rng) :
  let l := default builtin_default (SURNAMES_DATA !! py "DEFAULT") in
  l <> [] ->
  exists s, l !! N.to_nat (peek g mod N.of_nat (length l)) = Some s
            /\ get_korean_surname upper SURNAMES_DATA [] g = Ok (s, advance g).
Proof.
  intros l Hl. destruct (choice_ok l g Hl) as (s & Hc & _ & Hs).
  exists s. split; [exact Hs | exact Hc].
Qed.

Lemma C3_empty_name_uniform_choice_witness :
  exists s, [kim; lee] !! 1 = Some s
            /\ get_korean_surname ascii_upper demo_surnames [] (const_rng 1)
               = Ok (s, advance (const_rng 1)).
Proof.
  apply (C3_empty_name_uniform_choice ascii_upper demo_surnames (const_rng 1)).
  vm_compute. discriminate.
Defined.

(** C3 (as stated) fails: with [DEFAULT = [kim (weight 3); lee (weight 1)]]
    the same generator state makes the program return [lee] where weighted
    selection returns [kim], and [lee] is returned for half of the draws
    [0..3] although it carries a quarter of the weight. *)
Lemma C3_empty_name_ignores_weights :
  get_korean_surname ascii_upper demo_surnames [] (const_rng 1)
    = Ok (lee, advance (const_rng 1))
  /\ spec_empty_name_selection demo_surnames (const_rng 1)
    = Ok (kim, advance (const_rng 1))
  /\ kim <> lee
  /\ hits (get_korean_surname ascii_upper demo_surnames []) lee 4 = 2
  /\ hits (get_korean_surname ascii_upper demo_surnames []) kim 4 = 2.
Proof.
  split; [vm_compute; reflexivity|]. split; [vm_compute; reflexivity|].
  split; [discriminate|]. split; vm_compute; reflexivity.
Qed.

(** C4. A non-empty family name whose upper-case form is [SMITH] yields the
    fixed entry [{korean: 송, hanja: 宋}], whatever the tables and the
    generator state, and no draw is consumed. *)
Theorem C4_smith_fixed_entry
    (upper : pystr -> pystr) (SURNAMES_DATA : gmap pystr (list surname))
    (last_name : pystr) (g : rng) :
  last_name <> [] ->
  upper last_name = py "SMITH" ->
  get_korean_surname upper SURNAMES_DATA last_name g = Ok (smith_entry, g)
  /\ sn_korean smith_entry = Some (py "송")
  /\ sn_hanja smith_entry = Some (py "宋").
Proof.
  intros Hne Hup. split; [|split; reflexivity].
  unfold get_korean_surname. destruct last_name as [|c rest]; [congruence|].
  destruct (decide _) as [_|Hn]; [reflexivity | contradiction].
Qed.

Lemma C4_smith_fixed_entry_witness :
  get_korean_surname ascii_upper demo_surnames (py "Smith") demo_rng
    = Ok (smith_entry, demo_rng)
  /\ sn_korean smith_entry = Some (py "송")
  /\ sn_hanja smith_entry = Some (py "宋").
Proof.
  apply (C4_smith_fixed_entry ascii_upper demo_surnames (py "Smith") demo_rng).
  - vm_compute. discriminate.
  - vm_compute. reflexivity.
Defined.

(** C9. With empty tables the two functions raise: a family name such as
    [Jones] makes [get_korean_surname] iterate over [None] ([TypeError]),
    and [generate_fortune] calls [random.choice] on an empty key list
    ([IndexError]), for every tag list. Only the empty-name path, which
    carries a built-in default, and the [SMITH] override survive. *)
Theorem C9_empty_tables_raise :
  (forall g, get_korean_surname ascii_upper ∅ (py "Jones") g = Raise TypeError)
  /\ (forall tags date today g,
        generate_fortune [] tags date today g = Raise IndexError)
  /\ (forall g, exists s,
        get_korean_surname ascii_upper ∅ [] g = Ok (s, advance g)
        /\ sn_hanja s = Some (py "李")).
Proof.
  split; [|split].
  - intros g. vm_compute. reflexivity.
  - intros tags date today g. unfold generate_fortune.
    assert (Hf : filter (fun tag => is_Some (alookup tag ([] : list (pystr * list pystr)))) tags = []).
    { induction tags as [|t tags IH]; [reflexivity|].
      rewrite filter_cons. destruct (decide _) as [[x Hx]|_]; [discriminate | exact IH]. }
    rewrite Hf. reflexivity.
  - intros g. unfold get_korean_surname. rewrite lookup_empty. simpl.
    destruct (choice_ok builtin_default g) as (s & Hc & Hin & _); [discriminate|].
    exists s. split; [exact Hc|].
    unfold builtin_default in Hin. apply list_elem_of_singleton in Hin.
    subst s. reflexivity.
Qed.

(** ** The tag-indexed pool *)

Lemma bucket_append_ok P tag s d :
  P s -> buckets_ok P d -> buckets_ok P (bucket_append tag s d).
Proof.
  intros Hs. unfold buckets_ok. induction d as [|[k v] d IH]; intros Hd; simpl.
  - repeat constructor; [discriminate | exact Hs].
  - apply Forall_cons in Hd as [[Hv HP] Hd]. simpl in *.
    destruct (decide (k = tag)).
    + constructor; [|exact Hd]. simpl. split.
      * destruct v; discriminate.
      * apply Forall_app. split; [exact HP | repeat constructor; exact Hs].
    + constructor; [split; assumption | apply IH; exact Hd].
Qed.

Lemma bucket_append_nonempty tag s d : bucket_append tag s d <> [].
Proof. destruct d as [|[k v] d]; simpl; [|destruct (decide _)]; discriminate. Qed.

Lemma fold_buckets_ok P (data : list syllable) : forall acc,
  Forall P data -> buckets_ok P acc ->
  buckets_ok P (fold_left (fun d s => bucket_append (sy_tag s) s d) data acc).
Proof.
  induction data as [|s data IH]; intros acc Hdata Hacc; simpl; [exact Hacc|].
  apply Forall_cons in Hdata as [Hs Hdata].
  apply IH; [exact Hdata | now apply bucket_append_ok].
Qed.

Lemma fold_buckets_nonempty (data : list syllable) : forall acc,
  acc <> [] ->
  fold_left (fun d s => bucket_append (sy_tag s) s d) data acc <> [].
Proof.
  induction data as [|s data IH]; intros acc Hacc; simpl; [exact Hacc|].
  apply IH, bucket_append_nonempty.
Qed.

Lemma group_by_tag_ok P (data : list syllable) :
  Forall P data -> buckets_ok P (group_by_tag data).
Proof. intros H. apply fold_buckets_ok; [exact H | constructor]. Qed.

Lemma group_by_tag_nonempty (data : list syllable) :
  data <> [] -> group_by_tag data <> [].
Proof.
  destruct data as [|s data]; [congruence|]. intros _.
  unfold group_by_tag. simpl. apply fold_buckets_nonempty. discriminate.
Qed.

Lemma alookup_elem {K V} `{EqDecision K} (k : K) (d : list (K * V)) v :
  alookup k d = Some v -> (k, v) ∈ d.
Proof.
  induction d as [|[k' v'] d IH]; simpl; [discriminate|].
  destruct (decide (k' = k)) as [->|_].
  - intros [= ->]. apply list_elem_of_here.
  - intros H. apply list_elem_of_further, IH, H.
Qed.

Lemma alookup_key {K V} `{EqDecision K} (k : K) (d : list (K * V)) :
  k ∈ keys d -> is_Some (alookup k d).
Proof.
  unfold keys. induction d as [|[k' v'] d IH]; simpl.
  - intros H. inversion H.
  - destruct (decide (k' = k)) as [->|Hne]; [eauto|].
    intros H. apply elem_of_cons in H as [->|H]; [congruence | auto].
Qed.

Lemma buckets_ok_lookup P d k v :
  buckets_ok P d -> alookup k d = Some v -> v <> [] /\ Forall P v.
Proof.
  intros Hd Hk. apply alookup_elem in Hk.
  unfold buckets_ok in Hd. rewrite Forall_forall in Hd. exact (Hd _ Hk).
Qed.

(** ** Syllable selection *)

Lemma getitem_inv {A} (o : option A) g v g' :
  getitem o g = Ok (v, g') -> o = Some v /\ g' = g.
Proof. destruct o; simpl; [intros H; apply ret_ok in H as [-> ->]; auto | discriminate]. Qed.

Lemma pick_tagged_ok P bt (chosen : list pystr) : forall selected g,
  buckets_ok P bt ->
  exists extra g', pick_tagged bt chosen selected g = Ok (selected ++ extra, g')
                   /\ length extra <= length chosen /\ Forall P extra.
Proof.
  induction chosen as [|tag rest IH]; intros selected g Hbt; simpl.
  - exists [], g. rewrite app_nil_r. split; [reflexivity|]. split; [simpl; lia | constructor].
  - destruct (alookup (Some tag) bt) as [options|] eqn:Hlk.
    + destruct (buckets_ok_lookup _ _ _ _ Hbt Hlk) as [Hne HP].
      set (common := filter (fun s => is_common s = true) options).
      assert (Hpick : exists x, (match common with
                                 | [] => choice options
                                 | _ => choice common
                                 end) g = Ok (x, advance g) /\ P x).
      { rewrite Forall_forall in HP.
        destruct common as [|c0 common'] eqn:Hc.
        - destruct (choice_ok options g Hne) as (x & Hx & Hin & _). eauto.
        - destruct (choice_ok (c0 :: common') g ltac:(discriminate))
            as (x & Hx & Hin & _).
          exists x. split; [exact Hx|]. apply HP.
          rewrite <- Hc in Hin. unfold common in Hin.
          apply list_elem_of_filter in Hin as [_ Hin]. exact Hin. }
      destruct Hpick as (x & Hx & HPx).
      destruct (IH (selected ++ [x]) (advance g) Hbt) as (extra & g' & He & Hlen & HPe).
      exists (x :: extra), g'. split; [|split].
      * rewrite (bind_step _ _ _ _ _ Hx). rewrite He. now rewrite <- app_assoc.
      * simpl. lia.
      * constructor; assumption.
    + destruct (IH selected g Hbt) as (extra & g' & He & Hlen & HPe).
      exists extra, g'. split; [exact He|]. split; [lia | exact HPe].
Qed.

Lemma fill_missing_ok P bt (missing : nat) : forall selected g,
  bt <> [] -> buckets_ok P bt ->
  exists fill g', fill_missing bt missing selected g = Ok (selected ++ fill, g')
                  /\ length fill = missing /\ Forall P fill
                  /\ pos g' = pos g + 2 * missing.
Proof.
  induction missing as [|m IH]; intros selected g Hne Hbt; simpl.
  - exists [], g. rewrite app_nil_r. split; [reflexivity|]. split; [reflexivity|].
    split; [constructor | lia].
  - assert (Hk : keys bt <> []) by (destruct bt; [congruence | discriminate]).
    destruct (choice_ok (keys bt) g Hk) as (tag & Htag & Hin & _).
    destruct (alookup_key _ _ Hin) as [bucket Hb].
    destruct (buckets_ok_lookup _ _ _ _ Hbt Hb) as [Hbne HP].
    destruct (choice_ok bucket (advance g) Hbne) as (s & Hs & Hsin & _).
    destruct (IH (selected ++ [s]) (advance (advance g)) Hne Hbt)
      as (fill & g' & Hf & Hlen & HPf & Hpos).
    exists (s :: fill), g'. split; [|split; [|split]].
    + rewrite (bind_step _ _ _ _ _ Htag). rewrite Hb. unfold getitem.
      unfold bind at 1, ret at 1. rewrite (bind_step _ _ _ _ _ Hs).
      rewrite Hf. now rewrite <- app_assoc.
    + simpl. lia.
    + constructor; [|exact HPf]. rewrite Forall_forall in HP. auto.
    + rewrite Hpos. simpl. lia.
Qed.

Lemma fill_missing_length bt (missing : nat) : forall selected g sel g',
  fill_missing bt missing selected g = Ok (sel, g') ->
  length sel = length selected + missing.
Proof.
  induction missing as [|m IH]; intros selected g sel g' H; simpl in H.
  - apply ret_ok in H as [-> _]. lia.
  - inv_bind H. inv_bind H. inv_bind H. apply IH in H.
    rewrite length_app in H. simpl in H. lia.
Qed.

Lemma select_syllables_at_least_two bt tags g sel g' :
  select_syllables bt tags g = Ok (sel, g') -> 2 <= length sel.
Proof.
  unfold select_syllables. intros H. inv_bind H. inv_bind H.
  apply fill_missing_length in H. lia.
Qed.

Lemma select_syllables_ok P bt (tags : list pystr) g :
  bt <> [] -> buckets_ok P bt ->
  exists chosen g1 picked g2 fill g3,
    sample tags (min 2 (length tags)) g = Ok (chosen, g1)
    /\ pick_tagged bt chosen [] g1 = Ok (picked, g2)
    /\ select_syllables bt tags g = Ok (picked ++ fill, g3)
    /\ length (picked ++ fill) = 2
    /\ length fill = 2 - length picked
    /\ Forall P (picked ++ fill)
    /\ pos g3 = pos g2 + 2 * length fill.
Proof.
  intros Hne Hbt.
  destruct (sample_ok tags (min 2 (length tags)) g ltac:(lia))
    as (chosen & g1 & Hs & Hlen).
  destruct (pick_tagged_ok P bt chosen [] g1 Hbt) as (picked & g2 & Hp & Hple & HPp).
  simpl in Hp.
  destruct (fill_missing_ok P bt (2 - length picked) picked g2 Hne Hbt)
    as (fill & g3 & Hf & Hfl & HPf & Hpos).
  exists chosen, g1, picked, g2, fill, g3.
  split; [exact Hs|]. split; [exact Hp|]. split; [|split; [|split; [|split]]].
  - unfold select_syllables. rewrite (bind_step _ _ _ _ _ Hs).
    rewrite (bind_step _ _ _ _ _ Hp). exact Hf.
  - rewrite length_app. lia.
  - exact Hfl.
  - apply Forall_app. split; assumption.
  - rewrite Hpos, Hfl. reflexivity.
Qed.

(** C6. Over a non-empty pool, and for every tag list, the selection step
    returns exactly two entries: those picked for the chosen tags, followed
    by as many fill entries as are missing, each taken with two draws (a
    key of the whole pool, then an entry of its bucket). Every entry
    returned lies in the pool, in the bucket of one of its tags. *)
Theorem C6_selection_collects_two
    (SYLLABLES_DATA : list syllable) (tags : list pystr) (g : rng) :
  SYLLABLES_DATA <> [] ->
  exists chosen g1 picked g2 fill g3,
    sample tags (min 2 (length tags)) g = Ok (chosen, g1)
    /\ pick_tagged (group_by_tag SYLLABLES_DATA) chosen [] g1 = Ok (picked, g2)
    /\ select_syllables (group_by_tag SYLLABLES_DATA) tags g = Ok (picked ++ fill, g3)
    /\ length (picked ++ fill) = 2
    /\ length fill = 2 - length picked
    /\ Forall (from_pool SYLLABLES_DATA) (picked ++ fill)
    /\ pos g3 = pos g2 + 2 * length fill.
Proof.
  intros Hne. apply select_syllables_ok.
  - now apply group_by_tag_nonempty.
  - assert (Hin : buckets_ok (fun s => s ∈ SYLLABLES_DATA) (group_by_tag SYLLABLES_DATA))
      by (apply group_by_tag_ok; rewrite Forall_forall; auto).
    unfold buckets_ok in *. rewrite Forall_forall in Hin. rewrite Forall_forall.
    intros [k v] Hkv. destruct (Hin _ Hkv) as [Hv HP]. split; [exact Hv|].
    rewrite Forall_forall in HP. rewrite Forall_forall. intros s Hs.
    split; [exact (HP _ Hs) | exists k, v; auto].
Qed.

Lemma C6_selection_collects_two_witness :
  exists chosen g1 picked g2 fill g3,
    sample [py "nonexistent_tag"] (min 2 (length [py "nonexistent_tag"])) demo_rng
      = Ok (chosen, g1)
    /\ pick_tagged (group_by_tag demo_syllables) chosen [] g1 = Ok (picked, g2)
    /\ select_syllables (group_by_tag demo_syllables) [py "nonexistent_tag"] demo_rng
       = Ok (picked ++ fill, g3)
    /\ length (picked ++ fill) = 2
    /\ length fill = 2 - length picked
    /\ Forall (from_pool demo_syllables) (picked ++ fill)
    /\ pos g3 = pos g2 + 2 * length fill.
Proof.
  apply (C6_selection_collects_two demo_syllables [py "nonexistent_tag"] demo_rng).
  discriminate.
Defined.

(** ** Candidates *)

Lemma map_m_total {A B} (f : A -> M B) (l : list A) :
  Forall (fun x => exists y, forall g, f x g = Ok (y, g)) l ->
  exists ys, forall g, map_m f l g = Ok (ys, g).
Proof.
  induction 1 as [|x l (y & Hy) _ (ys & Hys)]; simpl.
  - exists []. reflexivity.
  - exists (y :: ys). intros g.
    rewrite (bind_step _ _ _ _ _ (Hy g)), (bind_step _ _ _ _ _ (Hys g)). reflexivity.
Qed.

Lemma make_candidate_shape sn sel g c g' :
  make_candidate sn sel g = Ok (c, g') -> 2 <= length sel ->
  candidate_shape (sn_hanja sn) c.
Proof.
  unfold make_candidate. intros H Hlen.
  inv_bind H. inv_bind H. inv_bind H. inv_bind H. inv_bind H.
  apply ret_ok in H as [-> _].
  apply map_m_length in E0, E3. rewrite length_take in E0, E3.
  apply getitem_inv in E2 as [E2 _].
  unfold candidate_shape. simpl. rewrite E2. repeat split; lia.
Qed.

Lemma make_candidate_total sn sel g :
  is_Some (sn_korean sn) -> is_Some (sn_hanja sn) -> Forall syllable_wf sel ->
  exists c, make_candidate sn sel g = Ok (c, g).
Proof.
  intros [k Hk] [h Hh] Hwf.
  assert (Htwo : Forall syllable_wf (take 2 sel)) by now apply Forall_take.
  destruct (map_m_total (fun s => getitem (sy_syllable s)) (take 2 sel)) as (a & Ha).
  { eapply Forall_impl; [exact Htwo|]. intros s ([x Hx] & _ & _).
    exists x. intros g0. now rewrite Hx. }
  destruct (map_m_total (fun s => getitem (sy_hanja s)) (take 2 sel)) as (b & Hb).
  { eapply Forall_impl; [exact Htwo|]. intros s (_ & [x Hx] & _).
    exists x. intros g0. now rewrite Hx. }
  destruct (map_m_total
              (fun s => a <- getitem (sy_syllable s) ;;
                        b <- getitem (sy_hanja s) ;;
                        c <- getitem (sy_meaning s) ;;
                        ret {| gv_syllable := a; gv_hanja := b; gv_meaning := c |})
              (take 2 sel)) as (gv & Hgv).
  { eapply Forall_impl; [exact Htwo|]. intros s ([x Hx] & [y Hy] & [z Hz]).
    eexists. intros g0. rewrite Hx, Hy, Hz. reflexivity. }
  eexists. unfold make_candidate.
  rewrite (bind_step _ _ _ _ _ (Ha g)), (bind_step _ _ _ _ _ (Hb g)).
  rewrite Hk, Hh. simpl getitem.
  unfold bind at 1, ret at 1. unfold bind at 1, ret at 1.
  rewrite (bind_step _ _ _ _ _ (Hgv g)). reflexivity.
Qed.

Lemma pinned_candidate_shape sn g c g' :
  pinned_candidate sn g = Ok (c, g') -> candidate_shape (sn_hanja sn) c.
Proof.
  unfold pinned_candidate. intros H. inv_bind H. inv_bind H.
  apply ret_ok in H as [-> _]. apply getitem_inv in E as [E _].
  unfold candidate_shape. simpl. rewrite E. auto.
Qed.

Lemma generate_loop_shape bt tags sn (n : nat) : forall cs g cs' g',
  generate_loop bt tags sn n cs g = Ok (cs', g') ->
  Forall (candidate_shape (sn_hanja sn)) cs ->
  length cs' = length cs + n /\ Forall (candidate_shape (sn_hanja sn)) cs'.
Proof.
  induction n as [|n IH]; intros cs g cs' g' H Hcs; simpl in H.
  - apply ret_ok in H as [-> _]. split; [lia | exact Hcs].
  - inv_bind H. inv_bind H.
    apply select_syllables_at_least_two in E.
    apply make_candidate_shape in E0; [|exact E].
    apply IH in H as [Hlen Hsh].
    + rewrite length_app in Hlen. simpl in Hlen. split; [lia | exact Hsh].
    + apply Forall_app. split; [exact Hcs|]. constructor; [exact E0 | constructor].
Qed.

Lemma generate_loop_total bt tags sn (n : nat) : forall cs g,
  bt <> [] -> buckets_ok syllable_wf bt ->
  is_Some (sn_korean sn) -> is_Some (sn_hanja sn) ->
  exists new g', generate_loop bt tags sn n cs g = Ok (cs ++ new, g')
                 /\ length new = n.
Proof.
  induction n as [|n IH]; intros cs g Hne Hbt Hk Hh; simpl.
  - exists [], g. rewrite app_nil_r. split; reflexivity.
  - destruct (select_syllables_ok syllable_wf bt tags g Hne Hbt)
      as (chosen & g1 & picked & g2 & fill & g3 & _ & _ & Hsel & _ & _ & Hwf & _).
    destruct (make_candidate_total sn (picked ++ fill) g3 Hk Hh Hwf) as (c & Hc).
    destruct (IH (cs ++ [c]) g3 Hne Hbt Hk Hh) as (new & g' & Hl & Hlen).
    exists (c :: new), g'. split; [|simpl; lia].
    rewrite (bind_step _ _ _ _ _ Hsel), (bind_step _ _ _ _ _ Hc).
    rewrite Hl. now rewrite <- app_assoc.
Qed.

(** ** Name generation *)

Lemma surname_of_smith upper SURNAMES_DATA (last_name : pystr) g :
  last_name <> [] -> upper last_name = py "SMITH" ->
  get_korean_surname upper SURNAMES_DATA last_name g = Ok (smith_entry, g).
Proof.
  intros Hne Hup. unfold get_korean_surname.
  destruct last_name as [|c rest]; [congruence|].
  destruct (decide _) as [_|Hn]; [reflexivity | contradiction].
Qed.

(** C1. Whenever [generate_korean_names] returns, it returns exactly three
    candidates; each has a [given_name] of two entries and a [hanja] list of
    three entries whose first one is the hanja of the surname resolved for
    this call. *)
Theorem C1_three_candidates_of_fixed_shape
    (upper : pystr -> pystr) (SYLLABLES_DATA : list syllable)
    (SURNAMES_DATA : gmap pystr (list surname))
    (first_name last_name : pystr) (options : option opts)
    (g : rng) (candidates : list candidate) (g' : rng) :
  generate_korean_names upper SYLLABLES_DATA SURNAMES_DATA
    first_name last_name options g = Ok (candidates, g') ->
  exists sn g1,
    get_korean_surname upper SURNAMES_DATA last_name g = Ok (sn, g1)
    /\ length candidates = 3
    /\ Forall (candidate_shape (sn_hanja sn)) candidates.
Proof.
  unfold generate_korean_names. cbv zeta. intros H.
  inv_bind H. rename a into sn, g0 into g1. exists sn, g1. split; [exact E|].
  inv_bind H. rename a into cs0.
  assert (Hcs0 : length cs0 <= 1 /\ Forall (candidate_shape (sn_hanja sn)) cs0).
  { destruct (decide _) in E0.
    - inv_bind E0. apply ret_ok in E0 as [-> _].
      apply pinned_candidate_shape in E1. split; [simpl; lia|].
      constructor; [exact E1 | constructor].
    - apply ret_ok in E0 as [-> _]. split; [simpl; lia | constructor]. }
  destruct Hcs0 as [Hlen0 Hsh0].
  inv_bind H. apply ret_ok in H as [-> _].
  apply generate_loop_shape in E1 as [Hlen Hsh]; [|exact Hsh0].
  rewrite firstn_all2 by lia. split; [lia | exact Hsh].
Qed.

Lemma C1_three_candidates_of_fixed_shape_witness :
  exists cands g' sn g1,
    generate_korean_names ascii_upper demo_syllables demo_surnames
      (py "Ann") (py "Jones") None demo_rng = Ok (cands, g')
    /\ get_korean_surname ascii_upper demo_surnames (py "Jones") demo_rng = Ok (sn, g1)
    /\ length cands = 3
    /\ Forall (candidate_shape (sn_hanja sn)) cands.
Proof.
  destruct (generate_korean_names ascii_upper demo_syllables demo_surnames
              (py "Ann") (py "Jones") None demo_rng) as [[cands g']|e] eqn:Hrun;
    [|vm_compute in Hrun; discriminate].
  destruct (C1_three_candidates_of_fixed_shape _ _ _ _ _ _ _ _ _ Hrun)
    as (sn & g1 & Hs & Hlen & Hsh).
  exists cands, g', sn, g1. auto.
Defined.

(** C10. The [gender] option does not reach the result: two calls that
    agree on the names, on the tags and on the generator state return the
    same candidates and leave the same generator state. *)
Theorem C10_gender_is_ignored
    (upper : pystr -> pystr) (SYLLABLES_DATA : list syllable)
    (SURNAMES_DATA : gmap pystr (list surname))
    (first_name last_name : pystr) (o1 o2 : opts) (g : rng) :
  o_tags o1 = o_tags o2 ->
  generate_korean_names upper SYLLABLES_DATA SURNAMES_DATA
    first_name last_name (Some o1) g
  = generate_korean_names upper SYLLABLES_DATA SURNAMES_DATA
      first_name last_name (Some o2) g.
Proof.
  intros Ht. unfold generate_korean_names. cbv zeta. simpl default at 2 4.
  rewrite Ht. reflexivity.
Qed.

Lemma C10_gender_is_ignored_witness :
  generate_korean_names ascii_upper demo_syllables demo_surnames
    (py "Ann") (py "Jones")
    (Some {| o_tags := Some [py "지혜"]; o_gender := Some (py "female") |}) demo_rng
  = generate_korean_names ascii_upper demo_syllables demo_surnames
      (py "Ann") (py "Jones")
      (Some {| o_tags := Some [py "지혜"]; o_gender := Some (py "male") |}) demo_rng.
Proof.
  apply (C10_gender_is_ignored ascii_upper demo_syllables demo_surnames
           (py "Ann") (py "Jones")
           {| o_tags := Some [py "지혜"]; o_gender := Some (py "female") |}
           {| o_tags := Some [py "지혜"]; o_gender := Some (py "male") |} demo_rng).
  reflexivity.
Defined.

(** ** Romanization and surname meaning *)

Lemma map_passthrough (given_name : pystr) :
  Forall (fun c => given_romanization !! [c] = None) given_name ->
  map romanize_char given_name = map (fun c => [c]) given_name.
Proof.
  induction 1 as [|c l Hc _ IH]; [reflexivity|].
  cbn [map]. rewrite IH. f_equal.
  exact (f_equal (default [c]) Hc).
Qed.

(** C7. [romanize_korean_name] and [get_surname_meaning] are functions of
    their arguments alone: equal arguments give equal strings. The
    romanized name is the surname part, a space, and the given parts joined
    by hyphens; a surname absent from its table, and a character absent
    from the given-name table, pass through unchanged. *)
Theorem C7_romanize_and_meaning_pure (surname given_name h : pystr) :
  (forall surname' given_name' h',
      surname' = surname -> given_name' = given_name -> h' = h ->
      romanize_korean_name surname' given_name'
        = romanize_korean_name surname given_name
      /\ get_surname_meaning h' = get_surname_meaning h)
  /\ romanize_korean_name surname given_name
     = default surname (romanization_map !! surname) ++ py " "
       ++ join (py "-")
            (map (fun c => default [c] (given_romanization !! [c])) given_name)
  /\ (romanization_map !! surname = None ->
      Forall (fun c => given_romanization !! [c] = None) given_name ->
      romanize_korean_name surname given_name
      = surname ++ py " " ++ join (py "-") (map (fun c => [c]) given_name)).
Proof.
  split; [|split].
  - intros s' g' h' -> -> ->. split; reflexivity.
  - reflexivity.
  - intros Hs Hg. unfold romanize_korean_name.
    rewrite Hs, (map_passthrough _ Hg). reflexivity.
Qed.

Lemma C7_romanize_and_meaning_pure_witness :
  romanize_korean_name (py "宋") (py "가나") = py "宋 가-나"
  /\ get_surname_meaning (py "宋") = get_surname_meaning (py "宋").
Proof.
  destruct (C7_romanize_and_meaning_pure (py "宋") (py "가나") (py "宋"))
    as (Hdet & _ & Hpass).
  split.
  - rewrite Hpass.
    + vm_compute. reflexivity.
    + vm_compute. reflexivity.
    + repeat constructor.
  - exact (proj2 (Hdet (py "宋") (py "가나") (py "宋") eq_refl eq_refl eq_refl)).
Defined.

(** ** Fortunes *)

Lemma filter_absent (FORTUNES_DATA : list (pystr * list pystr)) (tags : list pystr) :
  Forall (fun tag => alookup tag FORTUNES_DATA = None) tags ->
  filter (fun tag => is_Some (alookup tag FORTUNES_DATA)) tags = [].
Proof.
  induction 1 as [|t l Ht _ IH]; [reflexivity|].
  rewrite filter_cons. destruct (decide _) as [[x Hx]|_]; [congruence | exact IH].
Qed.

(** C8. When the tag list is empty or holds only tags absent from a fortune
    table in which every tag has a message, [generate_fortune] returns: the
    tag is drawn among all keys of the table, the date passed in comes back
    unchanged, and [deeper_look] is one of the messages of the drawn tag. *)
Theorem C8_fortune_falls_back_to_all_tags
    (FORTUNES_DATA : list (pystr * list pystr)) (tags : list pystr)
    (d today : pystr) (g : rng) :
  fortunes_wf FORTUNES_DATA ->
  Forall (fun tag => alookup tag FORTUNES_DATA = None) tags ->
  exists tag messages r g',
    keys FORTUNES_DATA
      !! N.to_nat (peek g mod N.of_nat (length (keys FORTUNES_DATA))) = Some tag
    /\ (tag, messages) ∈ FORTUNES_DATA
    /\ generate_fortune FORTUNES_DATA tags (Some d) today g = Ok (r, g')
    /\ date r = d
    /\ deeper_look r ∈ messages
    /\ cosmic_cookie r ∈ cosmic_cookies
    /\ lucky_snack r ∈ lucky_snacks.
Proof.
  intros [Hne Hmsgs] Habs.
  assert (Hk : keys FORTUNES_DATA <> [])
    by (destruct FORTUNES_DATA; [congruence | discriminate]).
  destruct (choice_ok (keys FORTUNES_DATA) g Hk) as (tag & Htag & Hin & Hidx).
  destruct (alookup_key _ _ Hin) as [messages Hm].
  pose proof (alookup_elem _ _ _ Hm) as Helem.
  assert (Hmne : messages <> []).
  { rewrite Forall_forall in Hmsgs. exact (Hmsgs _ Helem). }
  destruct (choice_ok messages (advance g) Hmne) as (m & Hmc & Hmin & _).
  destruct (choice_ok cosmic_cookies (advance (advance g)))
    as (ck & Hck & Hckin & _); [discriminate|].
  destruct (choice_ok lucky_snacks (advance (advance (advance g))))
    as (sn & Hsn & Hsnin & _); [discriminate|].
  exists tag, messages. eexists. eexists.
  split; [exact Hidx|]. split; [exact Helem|]. split.
  - unfold generate_fortune. rewrite (filter_absent _ _ Habs).
    rewrite (bind_step _ _ _ _ _ Htag). rewrite Hm. unfold getitem.
    unfold bind at 1, ret at 1.
    rewrite (bind_step _ _ _ _ _ Hmc), (bind_step _ _ _ _ _ Hck),
      (bind_step _ _ _ _ _ Hsn). reflexivity.
  - simpl. repeat split; assumption.
Qed.

Lemma C8_fortune_falls_back_to_all_tags_witness :
  exists tag messages r g',
    keys demo_fortunes
      !! N.to_nat (peek demo_rng mod N.of_nat (length (keys demo_fortunes))) = Some tag
    /\ (tag, messages) ∈ demo_fortunes
    /\ generate_fortune demo_fortunes [py "nonexistent_tag"]
         (Some (py "2024/01/01")) (py "2026/11/04") demo_rng = Ok (r, g')
    /\ date r = py "2024/01/01"
    /\ deeper_look r ∈ messages
    /\ cosmic_cookie r ∈ cosmic_cookies
    /\ lucky_snack r ∈ lucky_snacks.
Proof.
  apply (C8_fortune_falls_back_to_all_tags demo_fortunes [py "nonexistent_tag"]
           (py "2024/01/01") (py "2026/11/04") demo_rng).
  - split; [discriminate|]. repeat constructor; discriminate.
  - repeat constructor.
Defined.

(** ** Worked examples *)

Example romanize_song_wil_seon :
  romanize_korean_name (py "송") (py "월선") = py "Song Wil-Seon".
Proof. vm_compute. reflexivity. Qed.

Example surname_meaning_default :
  get_surname_meaning (py "張") = py "Noble family lineage".
Proof. vm_compute. reflexivity. Qed.

Example group_by_tag_keys :
  keys (group_by_tag demo_syllables) = [Some (py "밝음"); Some (py "지혜"); None].
Proof. vm_compute. reflexivity. Qed.

Example summary_of_two :
  generate_name_summary (take 2 demo_syllables) = py "밝은하고 어진한 사람".
Proof. vm_compute. reflexivity. Qed.

Example summary_of_one :
  generate_name_summary (take 1 demo_syllables) = py "품격 있고 아름다운 이름".
Proof. vm_compute. reflexivity. Qed.

(** The initial [J] selects the list [[jung; jang]]; the first draw of
    [demo_rng] is 3, a unit draw close to 0, so the walk stops at [jung]. *)
Example jones_resolves_to_jung :
  get_korean_surname ascii_upper demo_surnames (py "Jones") demo_rng
  = Ok (jung, advance demo_rng).
Proof. vm_compute. reflexivity. Qed.

(** An initial absent from the table falls back to [DEFAULT]. *)
Example brown_uses_default :
  get_korean_surname ascii_upper demo_surnames (py "brown") demo_rng
  = Ok (kim, advance demo_rng).
Proof. vm_compute. reflexivity. Qed.

(** Draws 3 and 10: position 0 of three, then position 0 of the two left,
    where the last element has been moved. *)
Example sample_two_of_three :
  exists g', sample [py "a"; py "b"; py "c"] 2 demo_rng = Ok ([py "a"; py "c"], g').
Proof. eexists. vm_compute. reflexivity. Qed.

Example names_for_ann_jones :
  exists g',
    (fun r => match r with
              | Ok (l, g) => Ok (map name_kr l, g)
              | Raise e => Raise e
              end)
      (generate_korean_names ascii_upper demo_syllables demo_surnames
         (py "Ann") (py "Jones") None demo_rng)
    = Ok ([py "정명지"; py "정명지"; py "정명지"], g').
Proof. eexists. vm_compute. reflexivity. Qed.

(** * Further properties of the code *)

(** ** Grouping by tag *)

Lemma alookup_bucket_append (k tag : option pystr) s d :
  alookup k (bucket_append tag s d)
  = if decide (tag = k) then Some (default [] (alookup k d) ++ [s])
    else alookup k d.
Proof.
  induction d as [|[k' v] d IH]; simpl.
  - destruct (decide (tag = k)); reflexivity.
  - destruct (decide (k' = tag)) as [->|Hkt]; simpl.
    + destruct (decide (tag = k)); reflexivity.
    + destruct (decide (k' = k)) as [->|Hkk].
      * destruct (decide (tag = k)); [congruence | reflexivity].
      * exact IH.
Qed.

Lemma alookup_fold_buckets (k : option pystr) (data : list syllable) : forall acc,
  alookup k (fold_left (fun d s => bucket_append (sy_tag s) s d) data acc)
  = match alookup k acc, filter (fun s => sy_tag s = k) data with
    | Some v, l => Some (v ++ l)
    | None, [] => None
    | None, l => Some l
    end.
Proof.
  induction data as [|s data IH]; intros acc; simpl.
  - destruct (alookup k acc); [now rewrite app_nil_r | reflexivity].
  - rewrite IH, alookup_bucket_append, filter_cons.
    destruct (decide (sy_tag s = k)) as [Hs|Hs].
    + destruct (alookup k acc) as [v|]; simpl.
      * now rewrite <- app_assoc.
      * reflexivity.
    + destruct (alookup k acc) as [v|]; reflexivity.
Qed.

Lemma alookup_group_by_tag (SYLLABLES_DATA : list syllable) (k : option pystr) :
  alookup k (group_by_tag SYLLABLES_DATA)
  = match filter (fun s => sy_tag s = k) SYLLABLES_DATA with
    | [] => None
    | l => Some l
    end.
Proof. unfold group_by_tag. rewrite alookup_fold_buckets. reflexivity. Qed.

Lemma keys_bucket_append (tag : option pystr) s d :
  keys (bucket_append tag s d)
  = if decide (tag ∈ keys d) then keys d else keys d ++ [tag].
Proof.
  unfold keys. induction d as [|[k v] d IH].
  - simpl. destruct (decide (tag ∈ [])) as [H|_]; [inversion H | reflexivity].
  - cbn [bucket_append]. destruct (decide (k = tag)) as [->|Hk].
    + cbn [map fst]. destruct (decide (tag ∈ tag :: map fst d)) as [_|H];
        [reflexivity|].
      exfalso. apply H. apply list_elem_of_here.
    + cbn [map fst]. rewrite IH.
      destruct (decide (tag ∈ map fst d)) as [Hin|Hin];
        destruct (decide (tag ∈ k :: map fst d)) as [H|H]; try reflexivity.
      * exfalso. apply H. now apply list_elem_of_further.
      * apply elem_of_cons in H as [->|H]; [congruence | contradiction].
Qed.

Lemma concat_bucket_append (tag : option pystr) s d :
  concat (bucket_append tag s d).*2 ≡ₚ s :: concat d.*2.
Proof.
  induction d as [|[k v] d IH]; simpl; [reflexivity|].
  destruct (decide (k = tag)); simpl.
  - rewrite <- app_assoc. simpl. symmetry. apply Permutation_middle.
  - rewrite IH. symmetry. apply Permutation_middle.
Qed.

Lemma fold_buckets_invariant (data : list syllable) : forall acc,
  NoDup (keys acc) ->
  NoDup (keys (fold_left (fun d s => bucket_append (sy_tag s) s d) data acc))
  /\ concat (fold_left (fun d s => bucket_append (sy_tag s) s d) data acc).*2
     ≡ₚ concat acc.*2 ++ data.
Proof.
  induction data as [|s data IH]; intros acc Hnd; simpl.
  - split; [exact Hnd | now rewrite app_nil_r].
  - destruct (IH (bucket_append (sy_tag s) s acc)) as [Hk Hp].
    + rewrite keys_bucket_append. destruct (decide _) as [_|Hnin]; [exact Hnd|].
      apply NoDup_app. split; [exact Hnd|]. split.
      * intros x Hx Hx'. apply list_elem_of_singleton in Hx'. congruence.
      * apply NoDup_singleton.
    + split; [exact Hk|]. rewrite Hp, concat_bucket_append.
      apply Permutation_middle.
Qed.

(** X2. Grouping loses and repeats nothing: no tag has two buckets, no
    bucket is empty, and the buckets together hold exactly the entries of
    the pool (as a multiset). *)
Theorem group_by_tag_partition (SYLLABLES_DATA : list syllable) :
  NoDup (keys (group_by_tag SYLLABLES_DATA))
  /\ Forall (fun kv => kv.2 <> []) (group_by_tag SYLLABLES_DATA)
  /\ concat (group_by_tag SYLLABLES_DATA).*2 ≡ₚ SYLLABLES_DATA.
Proof.
  destruct (fold_buckets_invariant SYLLABLES_DATA []) as [Hk Hp];
    [apply NoDup_nil_2|].
  split; [exact Hk|]. split; [|exact Hp].
  pose proof (group_by_tag_ok (fun _ => True) SYLLABLES_DATA) as H.
  unfold buckets_ok in H. eapply Forall_impl.
  - apply H. rewrite Forall_forall. auto.
  - intros kv [Hne _]. exact Hne.
Qed.

(** ** Sampling without replacement *)

Lemma randbelow_inv n g j g' :
  randbelow n g = Ok (j, g') -> j = N.to_nat (peek g mod N.of_nat n) /\ g' = advance g.
Proof. unfold randbelow, bind, next_draw, ret. intros [= <- <-]. auto. Qed.

Lemma index_inv {A} (l : list A) i g x g' :
  index l i g = Ok (x, g') -> l !! i = Some x /\ g' = g.
Proof.
  unfold index. destruct (l !! i); [|discriminate].
  intros H. apply ret_ok in H as [-> ->]. auto.
Qed.

Lemma take_swap_out {A} (pool : list A) m j x y :
  j < m -> m <= length pool ->
  pool !! j = Some x -> pool !! (m - 1) = Some y ->
  x :: take (m - 1) (<[j := y]> pool) ≡ₚ take m pool.
Proof.
  intros Hj Hm Hx Hy.
  replace m with (S (m - 1)) at 2 by lia.
  rewrite (take_S_r _ _ _ Hy).
  destruct (decide (j = m - 1)) as [->|Hne].
  - rewrite take_insert_ge by lia. assert (x = y) as -> by congruence.
    apply Permutation_cons_append.
  - rewrite take_insert_lt by lia.
    set (t := take (m - 1) pool).
    assert (Ht : t !! j = Some x) by (unfold t; rewrite lookup_take_lt; [exact Hx | lia]).
    assert (Hlen : j < length t) by (apply lookup_lt_is_Some; eauto).
    rewrite (insert_take_drop t j y Hlen).
    rewrite <- (take_drop_middle t j x Ht) at 3.
    rewrite <- Permutation_cons_append, <- !Permutation_middle.
    apply perm_swap.
Qed.

Lemma sample_pool_inv {A} (r : nat) : forall (pool : list A) m g l g',
  r <= m -> m <= length pool ->
  sample_pool pool m r g = Ok (l, g') ->
  l ⊆+ take m pool /\ length l = r /\ pos g' = pos g + r.
Proof.
  induction r as [|r IH]; intros pool m g l g' Hr Hm H; simpl in H.
  - apply ret_ok in H as [-> ->]. split; [apply submseteq_nil_l|]. split; [reflexivity | lia].
  - inv_bind H. inv_bind H. inv_bind H. inv_bind H. apply ret_ok in H as [-> ->].
    apply randbelow_inv in E as [Hj ->].
    apply index_inv in E0 as [Hx ->]. apply index_inv in E1 as [Hy ->].
    assert (Hlt : a < m).
    { subst a. assert (peek g mod N.of_nat m < N.of_nat m)%N by (apply N.mod_lt; lia). lia. }
    apply IH in E2 as (Hsub & Hlen & Hpos); [|lia|rewrite length_insert; lia].
    split; [|split; [simpl; lia | rewrite Hpos; simpl; lia]].
    rewrite <- (take_swap_out pool m a a0 a1 Hlt Hm Hx Hy).
    now constructor.
Qed.

Lemma sample_inv {A} (population : list A) k g l g' :
  sample population k g = Ok (l, g') ->
  l ⊆+ population /\ length l = k /\ pos g' = pos g + k.
Proof.
  unfold sample. destruct (Nat.ltb_spec (length population) k) as [Hk|Hk];
    [discriminate|].
  intros H. apply sample_pool_inv in H as (Hsub & Hlen & Hpos); [|lia|lia].
  rewrite firstn_all in Hsub. auto.
Qed.

(** ** The tag phase of the selection *)

Lemma tag_filter_nil (data : list syllable) (k : option pystr) :
  filter (fun s => sy_tag s = k) data = [] <-> k ∉ map sy_tag data.
Proof.
  induction data as [|s data IH]; simpl.
  - split; [intros _ H; inversion H | reflexivity].
  - rewrite filter_cons. destruct (decide (sy_tag s = k)) as [Hs|Hs].
    + split; [discriminate|]. intros H. exfalso. apply H. rewrite Hs.
      apply list_elem_of_here.
    + rewrite IH. rewrite elem_of_cons. split; [intros H [E|E]; congruence | tauto].
Qed.

(** X1. The bucket that the grouping loop builds for a tag is exactly the
    sub-list of the pool entries carrying that tag, in pool order, and a
    tag has a bucket exactly when some entry carries it. Entries without a
    [tag] key are grouped under [None]. *)
Theorem group_by_tag_bucket (SYLLABLES_DATA : list syllable) (k : option pystr) :
  (forall bucket,
      alookup k (group_by_tag SYLLABLES_DATA) = Some bucket
      <-> bucket = filter (fun s => sy_tag s = k) SYLLABLES_DATA
          /\ k ∈ map sy_tag SYLLABLES_DATA)
  /\ (alookup k (group_by_tag SYLLABLES_DATA) = None
      <-> k ∉ map sy_tag SYLLABLES_DATA).
Proof.
  rewrite alookup_group_by_tag.
  pose proof (tag_filter_nil SYLLABLES_DATA k) as Hnil.
  destruct (filter (fun s => sy_tag s = k) SYLLABLES_DATA) as [|s0 l] eqn:Hf.
  - split.
    + intros bucket. split; [discriminate|]. intros [_ Hin].
      exfalso. apply Hnil; [reflexivity | exact Hin].
    + split; [intros _; now apply Hnil | reflexivity].
  - assert (Hin : k ∈ map sy_tag SYLLABLES_DATA).
    { destruct (decide (k ∈ map sy_tag SYLLABLES_DATA)) as [H|H]; [exact H|].
      apply Hnil in H. discriminate H. }
    split.
    + intros bucket. split.
      * intros [= <-]. split; [reflexivity | exact Hin].
      * intros [-> _]. reflexivity.
    + split; [discriminate | intros H; contradiction].
Qed.

Lemma pick_tagged_inv (data : list syllable) (chosen : list pystr) :
  forall selected g sel g',
  pick_tagged (group_by_tag data) chosen selected g = Ok (sel, g') ->
  exists extra, sel = selected ++ extra
                /\ Forall2 (picked_for data) (present_tags data chosen) extra
                /\ pos g' = pos g + length extra.
Proof.
  unfold present_tags.
  induction chosen as [|tag rest IH]; intros selected g sel g' H;
    cbn [pick_tagged] in H.
  - apply ret_ok in H as [-> ->]. exists []. rewrite app_nil_r.
    split; [reflexivity|]. split; [constructor | simpl; lia].
  - rewrite alookup_group_by_tag in H. rewrite filter_cons.
    destruct (filter (fun s => sy_tag s = Some tag) data) as [|b0 bucket'] eqn:Hb.
    + apply tag_filter_nil in Hb.
      destruct (decide (Some tag ∈ map sy_tag data)); [contradiction|].
      eauto.
    + assert (Hin_data : Some tag ∈ map sy_tag data).
      { destruct (decide (Some tag ∈ map sy_tag data)) as [Hd|Hd]; [exact Hd|].
        apply tag_filter_nil in Hd. congruence. }
      destruct (decide (Some tag ∈ map sy_tag data)); [|contradiction].
      rewrite <- Hb in H. set (bucket := filter _ data) in *.
      inv_bind H. rename a into x.
      apply IH in H as (extra & -> & HF & Hpos).
      assert (Hx : picked_for data tag x /\ g0 = advance g).
      { set (common := filter (fun s => is_common s = true) bucket) in *.
        assert (Hbk : forall s, s ∈ bucket -> s ∈ data /\ sy_tag s = Some tag).
        { intros s Hs. unfold bucket in Hs.
          apply list_elem_of_filter in Hs as [? ?]. auto. }
        destruct common as [|c0 common'] eqn:Hc.
        - apply choice_inv in E as [Hxin ->]. split; [|reflexivity].
          destruct (Hbk _ Hxin) as [Hd Ht]. split; [exact Hd|]. split; [exact Ht|].
          intros (s' & Hs'd & Hs't & Hs'c). exfalso.
          assert (Hs' : s' ∈ common).
          { unfold common. apply list_elem_of_filter. split; [exact Hs'c|].
            unfold bucket. apply list_elem_of_filter. auto. }
          rewrite Hc in Hs'. inversion Hs'.
        - apply choice_inv in E as [Hxin ->]. split; [|reflexivity].
          rewrite <- Hc in Hxin. unfold common in Hxin.
          apply list_elem_of_filter in Hxin as [Hxc Hxb].
          destruct (Hbk _ Hxb) as [Hd Ht]. repeat split; auto. }
      destruct Hx as [Hx ->].
      exists (x :: extra). split; [now rewrite <- app_assoc|].
      split; [constructor; assumption|]. rewrite Hpos. simpl. lia.
Qed.

Lemma select_syllables_inv
    (SYLLABLES_DATA : list syllable) (tags : list pystr)
    (g : rng) (sel : list syllable) (g' : rng) :
  select_syllables (group_by_tag SYLLABLES_DATA) tags g = Ok (sel, g') ->
  exists chosen picked fill,
    chosen ⊆+ tags
    /\ length chosen = min 2 (length tags)
    /\ Forall2 (picked_for SYLLABLES_DATA) (present_tags SYLLABLES_DATA chosen) picked
    /\ sel = picked ++ fill
    /\ length fill = 2 - length picked
    /\ length sel = 2
    /\ Forall (fun s => s ∈ SYLLABLES_DATA) fill
    /\ pos g' = pos g + length chosen + length picked + 2 * length fill.
Proof.
  unfold select_syllables. intros H.
  inv_bind H. rename a into chosen. inv_bind H. rename a into picked.
  apply sample_inv in E as (Hsub & Hlen & Hpos0).
  apply pick_tagged_inv in E0 as (extra & Hpk & HF & Hpos1).
  simpl in Hpk. subst picked.
  assert (Hple : length extra <= 2).
  { apply Forall2_length in HF. rewrite <- HF. unfold present_tags.
    etransitivity; [apply length_filter|]. lia. }
  assert (Hne : SYLLABLES_DATA = [] -> extra = []).
  { intros ->. inversion HF as [|? ? ? ? Hp _]; [reflexivity|].
    destruct Hp as [Hp _]. inversion Hp. }
  destruct (decide (SYLLABLES_DATA = [])) as [Hd|Hd].
  - rewrite (Hne Hd) in H. subst SYLLABLES_DATA. simpl in H. discriminate.
  - destruct (fill_missing_ok (fun s => s ∈ SYLLABLES_DATA)
                (group_by_tag SYLLABLES_DATA) (2 - length extra) extra g1)
      as (fill & g3 & Hf & Hfl & HPf & Hpos2).
    + now apply group_by_tag_nonempty.
    + apply group_by_tag_ok. rewrite Forall_forall. auto.
    + rewrite Hf in H. injection H as <- <-.
      exists chosen, extra, fill. repeat split; try assumption.
      * rewrite length_app. lia.
      * lia.
Qed.

(** X3. For a tag list of at most [setsize] tags, whenever the selection
    step returns, its result is made of the entries picked for the sampled
    tags, then fill entries, two in all. The sampled tags are
    [min(2, len(tags))] tags taken from distinct positions of the caller's
    list; each sampled tag that occurs in the pool contributes, in order,
    one pool entry carrying that tag, and a common one whenever the pool
    has a common entry with that tag; the fill entries are pool entries.
    The step uses four draws, plus one for every sampled tag that gave no
    entry. *)
Theorem select_syllables_characterised
    (SYLLABLES_DATA : list syllable) (tags : list pystr)
    (g : rng) (sel : list syllable) (g' : rng) :
  length tags <= setsize ->
  select_syllables (group_by_tag SYLLABLES_DATA) tags g = Ok (sel, g') ->
  exists chosen picked fill,
    chosen ⊆+ tags
    /\ length chosen = min 2 (length tags)
    /\ Forall2 (picked_for SYLLABLES_DATA) (present_tags SYLLABLES_DATA chosen) picked
    /\ length picked <= length chosen
    /\ sel = picked ++ fill
    /\ length sel = 2
    /\ Forall (fun s => s ∈ SYLLABLES_DATA) sel
    /\ pos g' = pos g + 4 + (length chosen - length picked).
Proof.
  intros _ H.
  destruct (select_syllables_inv _ _ _ _ _ H)
    as (chosen & picked & fill & Hsub & Hcl & HF & Heq & Hfl & Hlen & Hfill & Hpos).
  assert (Hpl : length picked <= length chosen).
  { apply Forall2_length in HF. rewrite <- HF. apply length_filter. }
  assert (Hpk : Forall (fun s => s ∈ SYLLABLES_DATA) picked).
  { clear -HF. induction HF as [|t s l1 l2 Hp _ IH]; constructor;
      [apply Hp | exact IH]. }
  exists chosen, picked, fill.
  split; [exact Hsub|]. split; [exact Hcl|]. split; [exact HF|].
  split; [exact Hpl|]. split; [exact Heq|]. split; [exact Hlen|]. split.
  - rewrite Heq. apply Forall_app. split; assumption.
  - rewrite Heq, length_app in Hlen. lia.
Qed.

Lemma select_syllables_characterised_witness :
  exists sel g' chosen picked fill,
    select_syllables (group_by_tag demo_syllables)
      [py "지혜"; py "nonexistent_tag"] demo_rng = Ok (sel, g')
    /\ chosen ⊆+ [py "지혜"; py "nonexistent_tag"]
    /\ length chosen = min 2 (length [py "지혜"; py "nonexistent_tag"])
    /\ Forall2 (picked_for demo_syllables) (present_tags demo_syllables chosen) picked
    /\ length picked <= length chosen
    /\ sel = picked ++ fill
    /\ length sel = 2
    /\ Forall (fun s => s ∈ demo_syllables) sel
    /\ pos g' = pos demo_rng + 4 + (length chosen - length picked).
Proof.
  destruct (select_syllables (group_by_tag demo_syllables)
              [py "지혜"; py "nonexistent_tag"] demo_rng) as [[sel g']|e] eqn:Hrun;
    [|vm_compute in Hrun; discriminate].
  assert (Hsize : length [py "지혜"; py "nonexistent_tag"] <= setsize)
    by (vm_compute; lia).
  destruct (select_syllables_characterised _ _ _ _ _ Hsize Hrun)
    as (chosen & picked & fill & H).
  exists sel, g', chosen, picked, fill. split; [reflexivity | exact H].
Defined.

(** X4. When the caller passes at least two and at most [setsize] tags and
    every one of them occurs in the pool, the fill loop is not entered:
    the step returns two entries, one for each of two tags taken from
    distinct positions of the list, in sampling order, with the common
    preference, using four draws. *)
Theorem select_syllables_all_tags_present
    (SYLLABLES_DATA : list syllable) (tags : list pystr) (g : rng) :
  2 <= length tags <= setsize ->
  Forall (fun t => Some t ∈ map sy_tag SYLLABLES_DATA) tags ->
  exists t1 t2 s1 s2 g',
    select_syllables (group_by_tag SYLLABLES_DATA) tags g = Ok ([s1; s2], g')
    /\ [t1; t2] ⊆+ tags
    /\ picked_for SYLLABLES_DATA t1 s1
    /\ picked_for SYLLABLES_DATA t2 s2
    /\ pos g' = pos g + 4.
Proof.
  intros [Hlen _] Hall.
  assert (Hne : SYLLABLES_DATA <> []).
  { destruct tags as [|t tags]; [simpl in Hlen; lia|].
    apply Forall_cons in Hall as [Ht _]. intros ->. inversion Ht. }
  destruct (select_syllables_ok (fun _ => True) (group_by_tag SYLLABLES_DATA) tags g)
    as (c0 & g1 & p0 & g2 & f0 & g3 & _ & _ & Hsel & _).
  { now apply group_by_tag_nonempty. }
  { apply group_by_tag_ok. rewrite Forall_forall. auto. }
  destruct (select_syllables_inv _ _ _ _ _ Hsel)
    as (chosen & picked & fill & Hsub & Hcl & HF & Heq & Hfl & _ & _ & Hpos).
  assert (Hpres : present_tags SYLLABLES_DATA chosen = chosen).
  { unfold present_tags. rewrite Forall_forall in Hall.
    assert (Hch : Forall (fun t => Some t ∈ map sy_tag SYLLABLES_DATA) chosen).
    { rewrite Forall_forall. intros t Ht. apply Hall.
      eapply elem_of_submseteq; eauto. }
    clear -Hch. induction Hch as [|t l Ht _ IH]; [reflexivity|].
    rewrite filter_cons. destruct (decide _); [|contradiction]. now rewrite IH. }
  rewrite Hpres in HF. rewrite Nat.min_l in Hcl by lia.
  destruct chosen as [|t1 [|t2 [|t3 chosen]]]; try discriminate Hcl.
  inversion HF as [|? s1 ? l1 Hp1 HF1]; subst.
  inversion HF1 as [|? s2 ? l2 Hp2 HF2]; subst.
  inversion HF2; subst. simpl in Hfl. destruct fill; [|discriminate Hfl].
  exists t1, t2, s1, s2, g3. rewrite Heq in Hsel. simpl in Hsel, Hpos.
  repeat split; try assumption; try (apply Hp1); try (apply Hp2). lia.
Qed.

Lemma select_syllables_all_tags_present_witness :
  exists t1 t2 s1 s2 g',
    select_syllables (group_by_tag demo_syllables) [py "밝음"; py "지혜"] demo_rng
      = Ok ([s1; s2], g')
    /\ [t1; t2] ⊆+ [py "밝음"; py "지혜"]
    /\ picked_for demo_syllables t1 s1
    /\ picked_for demo_syllables t2 s2
    /\ pos g' = pos demo_rng + 4.
Proof.
  apply (select_syllables_all_tags_present demo_syllables [py "밝음"; py "지혜"] demo_rng).
  - vm_compute. lia.
  - repeat constructor; vm_compute; apply bool_decide_unpack; vm_compute; exact I.
Defined.

(** ** Candidates, field by field *)

Lemma map_m_inv {A B} (f : A -> M B) (R : A -> B -> Prop) :
  (forall x g y g', f x g = Ok (y, g') -> R x y /\ g' = g) ->
  forall l g ys g', map_m f l g = Ok (ys, g') -> Forall2 R l ys /\ g' = g.
Proof.
  intros Hf. induction l as [|x l IH]; intros g ys g' H; simpl in H.
  - apply ret_ok in H as [-> ->]. split; [constructor | reflexivity].
  - inv_bind H. inv_bind H. apply ret_ok in H as [-> ->].
    apply Hf in E as [HR ->]. apply IH in E0 as [HF ->].
    split; [constructor; assumption | reflexivity].
Qed.

Lemma Forall2_same_field {A B C} (f : A -> option B) (p : C -> B) l :
  forall ys gs,
  Forall2 (fun s y => f s = Some y) l ys ->
  Forall2 (fun s gv => f s = Some (p gv)) l gs ->
  ys = map p gs.
Proof.
  induction l as [|s l IH]; intros ys gs H1 H2;
    inversion H1; inversion H2; subst; [reflexivity|].
  simpl. f_equal; [congruence | eauto].
Qed.

Lemma make_candidate_inv sn s1 s2 rest g c g' :
  make_candidate sn (s1 :: s2 :: rest) g = Ok (c, g') ->
  g' = g
  /\ sn_korean sn = Some (fam_korean (family_name c))
  /\ sn_hanja sn = Some (fam_hanja (family_name c))
  /\ coherent c
  /\ summary_of_meanings c
  /\ Forall2 copies [s1; s2] (given_name c).
Proof.
  unfold make_candidate. cbn [take]. intros H.
  inv_bind H. inv_bind H. inv_bind H. inv_bind H. inv_bind H.
  apply ret_ok in H as [-> ->].
  apply (map_m_inv _ (fun s y => sy_syllable s = Some y)) in E as [Hsy ->];
    [|intros x gx y gy Hx; apply getitem_inv in Hx as [? ?]; auto].
  apply (map_m_inv _ (fun s y => sy_hanja s = Some y)) in E0 as [Hha ->];
    [|intros x gx y gy Hx; apply getitem_inv in Hx as [? ?]; auto].
  apply getitem_inv in E1 as [Hk ->]. apply getitem_inv in E2 as [Hh ->].
  apply (map_m_inv _ copies) in E3 as [Hgv ->].
  2:{ intros x gx y gy Hx. inv_bind Hx. inv_bind Hx. inv_bind Hx.
      apply ret_ok in Hx as [-> ->].
      apply getitem_inv in E as [? ->]. apply getitem_inv in E0 as [? ->].
      apply getitem_inv in E1 as [? ->]. repeat split; assumption. }
  assert (Ha : a = map gv_syllable a3).
  { apply (Forall2_same_field sy_syllable gv_syllable [s1; s2]); [exact Hsy|].
    eapply Forall2_impl; [exact Hgv|]. intros ? ? (? & _ & _). assumption. }
  assert (Hb : a0 = map gv_hanja a3).
  { apply (Forall2_same_field sy_hanja gv_hanja [s1; s2]); [exact Hha|].
    eapply Forall2_impl; [exact Hgv|]. intros ? ? (_ & ? & _). assumption. }
  subst a a0. cbn [family_name fam_korean fam_hanja fam_meaning].
  split; [reflexivity|]. split; [exact Hk|]. split; [exact Hh|].
  split; [|split; [|exact Hgv]].
  - unfold coherent. cbn. repeat split; reflexivity.
  - inversion Hgv as [|? ga ? l1 (_ & _ & Hm1) Hgv1]; subst.
    inversion Hgv1 as [|? gb ? l2 (_ & _ & Hm2) Hgv2]; subst.
    inversion Hgv2; subst. exists ga, gb. split; [reflexivity|].
    cbn [summary]. unfold generate_name_summary. cbn [map].
    rewrite Hm1, Hm2. reflexivity.
Qed.

Lemma generate_loop_inv (data : list syllable) tags sn (n : nat) :
  forall cs g cs' g',
  generate_loop (group_by_tag data) tags sn n cs g = Ok (cs', g') ->
  exists new, cs' = cs ++ new /\ length new = n
              /\ Forall (generated_for data sn) new
              /\ pos g + 4 * n <= pos g' <= pos g + 6 * n.
Proof.
  induction n as [|n IH]; intros cs g cs' g' H; simpl in H.
  - apply ret_ok in H as [-> ->]. exists []. rewrite app_nil_r.
    split; [reflexivity|]. split; [reflexivity|]. split; [constructor | lia].
  - inv_bind H. inv_bind H. rename a into sel, a0 into c.
    apply select_syllables_inv in E
      as (chosen & picked & fill & Hsub & Hcl & HF & -> & Hfl & Hlen & Hfill & Hpos).
    assert (Hpk : Forall (fun s => s ∈ data) picked).
    { clear -HF. induction HF as [|t s l1 l2 Hp _ IH]; constructor; [apply Hp | exact IH]. }
    assert (Hall : Forall (fun s => s ∈ data) (picked ++ fill))
      by (apply Forall_app; auto).
    assert (Hpl : length picked <= length chosen).
    { apply Forall2_length in HF. rewrite <- HF. apply length_filter. }
    destruct (picked ++ fill) as [|s1 [|s2 [|s3 more]]] eqn:Hsel;
      try discriminate Hlen.
    apply make_candidate_inv in E0 as (-> & Hk & Hh & Hco & Hsum & Hgv).
    apply IH in H as (new & -> & Hn & Hnew & Hp).
    exists (c :: new). split; [now rewrite <- app_assoc|].
    split; [simpl; lia|]. split; [|lia].
    constructor; [|exact Hnew].
    split; [exact Hk|]. split; [exact Hh|]. split; [exact Hco|]. split; [exact Hsum|].
    apply Forall_cons in Hall as [H1 Hall]. apply Forall_cons in Hall as [H2 _].
    revert Hgv. generalize (given_name c). intros gvs Hgv.
    inversion Hgv as [|? ga ? l1 Hc1 Hgv1]; subst.
    inversion Hgv1 as [|? gb ? l2 Hc2 Hgv2]; subst. inversion Hgv2; subst.
    constructor; [exists s1; split; assumption|].
    constructor; [exists s2; split; assumption | constructor].
Qed.

(** ** Surname resolution, inverted *)

Lemma uniform_inv (a b : Q) g r g' :
  uniform a b g = Ok (r, g') ->
  r = (a + (b - a) * unit_draw g)%Q /\ g' = advance g.
Proof.
  unfold uniform, random, bind, next_draw, ret, unit_draw.
  intros [= <- <-]. auto.
Qed.

Lemma weighted_pick_inv (surname_options : list surname) rand g s g' :
  weighted_pick surname_options rand g = Ok (s, g') ->
  s ∈ surname_options /\ g' = g.
Proof.
  unfold weighted_pick. intros H.
  pose proof (weighted_walk_char
                (zip surname_options (surname_weights surname_options)) 0 rand)
    as Hw.
  destruct (weighted_walk _ _ _) as [s'|].
  - apply ret_ok in H as [-> ->]. destruct Hw as (i & w & Hi & _).
    apply zip_weights_lookup in Hi. split; [|reflexivity].
    apply list_elem_of_lookup. eauto.
  - apply index_inv in H as [H0 ->]. split; [|reflexivity].
    apply list_elem_of_lookup. eauto.
Qed.

Lemma weighted_select_inv (surname_options : list surname) g s g' :
  weighted_select surname_options g = Ok (s, g') ->
  s ∈ surname_options /\ g' = advance g.
Proof.
  unfold weighted_select. intros H. inv_bind H.
  apply uniform_inv in E as [_ ->]. now apply weighted_pick_inv in H.
Qed.

Lemma get_korean_surname_inv
    (upper : pystr -> pystr) (SURNAMES_DATA : gmap pystr (list surname))
    (last_name : pystr) (g : rng) (sn : surname) (g1 : rng) :
  get_korean_surname upper SURNAMES_DATA last_name g = Ok (sn, g1) ->
  (last_name = []
   /\ sn ∈ default builtin_default (SURNAMES_DATA !! py "DEFAULT")
   /\ g1 = advance g)
  \/ (last_name <> [] /\ upper last_name = py "SMITH"
      /\ sn = smith_entry /\ g1 = g)
  \/ (last_name <> [] /\ upper last_name <> py "SMITH"
      /\ exists surname_options,
           options_for upper SURNAMES_DATA last_name = Some surname_options
           /\ sn ∈ surname_options /\ g1 = advance g).
Proof.
  unfold get_korean_surname, options_for. intros H.
  destruct last_name as [|c rest].
  - left. apply choice_inv in H as [Hin ->]. auto.
  - right. destruct (decide (upper (c :: rest) = py "SMITH")) as [Hs|Hs].
    + left. apply ret_ok in H as [-> ->]. repeat split; [discriminate | exact Hs].
    + right. split; [discriminate|]. split; [exact Hs|].
      destruct (SURNAMES_DATA !! upper [c]) as [l|].
      * apply weighted_select_inv in H as [? ?]. eauto.
      * destruct (SURNAMES_DATA !! py "DEFAULT") as [l|]; [|discriminate].
        apply weighted_select_inv in H as [? ?]. eauto.
Qed.

Lemma get_korean_surname_draws upper SURNAMES_DATA last_name g sn g1 :
  get_korean_surname upper SURNAMES_DATA last_name g = Ok (sn, g1) ->
  pos g <= pos g1 <= pos g + 1.
Proof.
  intros H. apply get_korean_surname_inv in H
    as [(_ & _ & ->)|[(_ & _ & _ & ->)|(_ & _ & _ & _ & _ & ->)]]; simpl; lia.
Qed.

(** X5. [get_korean_surname] never makes up an entry, and uses at most one
    draw. When it returns, the entry is: for an empty name, a member of the
    [DEFAULT] list (or of the built-in one-entry list); for a name whose
    upper-case form is [SMITH], the fixed entry, no draw used; for any
    other name, a member of the list stored under the upper-cased initial,
    or of [DEFAULT] when the initial has no list. *)
Theorem get_korean_surname_returns_table_entry
    (upper : pystr -> pystr) (SURNAMES_DATA : gmap pystr (list surname))
    (last_name : pystr) (g : rng) (sn : surname) (g1 : rng) :
  get_korean_surname upper SURNAMES_DATA last_name g = Ok (sn, g1) ->
  pos g <= pos g1 <= pos g + 1
  /\ ((last_name = []
       /\ sn ∈ default builtin_default (SURNAMES_DATA !! py "DEFAULT"))
      \/ (last_name <> [] /\ upper last_name = py "SMITH"
          /\ sn = smith_entry /\ g1 = g)
      \/ (last_name <> [] /\ upper last_name <> py "SMITH"
          /\ exists surname_options,
               options_for upper SURNAMES_DATA last_name = Some surname_options
               /\ sn ∈ surname_options)).
Proof.
  intros H. split; [eapply get_korean_surname_draws; eauto|].
  apply get_korean_surname_inv in H
    as [(Hl & Hin & _)|[(Hl & Hs & Hsn & Hg)|(Hl & Hs & opts & Ho & Hin & _)]].
  - left. auto.
  - right. left. auto.
  - right. right. split; [exact Hl|]. split; [exact Hs|]. eauto.
Qed.

Lemma get_korean_surname_returns_table_entry_witness :
  exists sn g1,
    get_korean_surname ascii_upper demo_surnames (py "Jones") demo_rng = Ok (sn, g1)
    /\ pos demo_rng <= pos g1 <= pos demo_rng + 1
    /\ ((py "Jones" = []
         /\ sn ∈ default builtin_default (demo_surnames !! py "DEFAULT"))
        \/ (py "Jones" <> [] /\ ascii_upper (py "Jones") = py "SMITH"
            /\ sn = smith_entry /\ g1 = demo_rng)
        \/ (py "Jones" <> [] /\ ascii_upper (py "Jones") <> py "SMITH"
            /\ exists surname_options,
                 options_for ascii_upper demo_surnames (py "Jones")
                   = Some surname_options
                 /\ sn ∈ surname_options)).
Proof.
  exists jung, (advance demo_rng).
  assert (Hrun : get_korean_surname ascii_upper demo_surnames (py "Jones") demo_rng
                 = Ok (jung, advance demo_rng)) by (vm_compute; reflexivity).
  split; [exact Hrun|].
  exact (get_korean_surname_returns_table_entry _ _ _ _ _ _ Hrun).
Defined.

(** ** Name generation, inverted *)

Lemma pinned_candidate_inv sn g c g' :
  pinned_candidate sn g = Ok (c, g') ->
  g' = g /\ sn_korean sn = Some (fam_korean (family_name c))
  /\ sn_hanja sn = Some (fam_hanja (family_name c)).
Proof.
  unfold pinned_candidate. intros H. inv_bind H. inv_bind H.
  apply ret_ok in H as [-> ->].
  apply getitem_inv in E as [? ->]. apply getitem_inv in E0 as [? ->]. auto.
Qed.

Lemma generate_korean_names_inv upper data SURNAMES_DATA
    first_name last_name options g cands g' :
  generate_korean_names upper data SURNAMES_DATA first_name last_name options g
    = Ok (cands, g') ->
  exists sn g1 seed gen,
    get_korean_surname upper SURNAMES_DATA last_name g = Ok (sn, g1)
    /\ cands = seed ++ gen
    /\ ((upper first_name = py "WILSON" /\ upper last_name = py "SMITH"
         /\ exists c0, pinned_candidate sn g1 = Ok (c0, g1) /\ seed = [c0])
        \/ (~ (upper first_name = py "WILSON" /\ upper last_name = py "SMITH")
            /\ seed = []))
    /\ length gen = 3 - length seed
    /\ Forall (generated_for data sn) gen
    /\ pos g1 + 4 * length gen <= pos g' <= pos g1 + 6 * length gen.
Proof.
  unfold generate_korean_names. cbv zeta. intros H.
  inv_bind H. rename a into sn, g0 into g1. inv_bind H. rename a into seed.
  inv_bind H. apply ret_ok in H as [-> ->].
  assert (Hseed : g0 = g1 /\ length seed <= 1 /\
            ((upper first_name = py "WILSON" /\ upper last_name = py "SMITH"
              /\ exists c0, pinned_candidate sn g1 = Ok (c0, g1) /\ seed = [c0])
             \/ (~ (upper first_name = py "WILSON" /\ upper last_name = py "SMITH")
                 /\ seed = []))).
  { destruct (decide _) as [[Hw Hs]|Hn] in E0.
    - inv_bind E0. apply ret_ok in E0 as [-> ->].
      pose proof (pinned_candidate_inv _ _ _ _ E2) as [-> _].
      split; [reflexivity|]. split; [simpl; lia|]. left. eauto.
    - apply ret_ok in E0 as [-> ->]. split; [reflexivity|]. split; [simpl; lia|].
      right. auto. }
  destruct Hseed as (-> & Hlen & Hseed).
  apply generate_loop_inv in E1 as (gen & -> & Hn & Hgen & Hpos).
  exists sn, g1, seed, gen. split; [exact E|].
  split; [apply firstn_all2; rewrite length_app; lia|].
  split; [exact Hseed|]. split; [exact Hn|]. split; [exact Hgen|].
  rewrite Hn. exact Hpos.
Qed.

(** C5. Over a non-empty pool whose entries carry the keys of the schema,
    [generate_korean_names("WILSON", "SMITH", {})] returns, for every
    generator state, exactly three candidates. The first one is the
    pre-authored candidate, whose [name_kr] is 송월선. The other two are
    what the generation loop appends to it for the default tags and the
    [SMITH] entry: each has the family name of that entry, two
    [given_name] entries copied from the pool, the name, romanization and
    hanja built from these parts, and the summary of the two meanings. *)
Theorem C5_wilson_smith_pinned_first
    (upper : pystr -> pystr) (SYLLABLES_DATA : list syllable)
    (SURNAMES_DATA : gmap pystr (list surname)) (g : rng) :
  upper (py "WILSON") = py "WILSON" ->
  upper (py "SMITH") = py "SMITH" ->
  SYLLABLES_DATA <> [] ->
  Forall syllable_wf SYLLABLES_DATA ->
  exists c1 c2 c3 g',
    generate_korean_names upper SYLLABLES_DATA SURNAMES_DATA
      (py "WILSON") (py "SMITH") (Some {| o_tags := None; o_gender := None |}) g
    = Ok ([c1; c2; c3], g')
    /\ pinned_candidate smith_entry g = Ok (c1, g)
    /\ name_kr c1 = py "송월선"
    /\ generate_loop (group_by_tag SYLLABLES_DATA) [py "밝음"; py "지혜"]
         smith_entry 2 [c1] g = Ok ([c1; c2; c3], g')
    /\ generated_for SYLLABLES_DATA smith_entry c2
    /\ generated_for SYLLABLES_DATA smith_entry c3.
Proof.
  intros Hw Hs Hne Hwf.
  assert (Hsn : get_korean_surname upper SURNAMES_DATA (py "SMITH") g
                = Ok (smith_entry, g)).
  { apply surname_of_smith; [discriminate | exact Hs]. }
  destruct (pinned_candidate smith_entry g) as [[c1 gp]|e] eqn:Hpin;
    [|discriminate].
  assert (gp = g) as -> by (injection Hpin; auto).
  destruct (generate_loop_total (group_by_tag SYLLABLES_DATA)
              [py "밝음"; py "지혜"] smith_entry 2 [c1] g)
    as (new & g' & Hloop & Hlen).
  { now apply group_by_tag_nonempty. }
  { now apply group_by_tag_ok. }
  { eexists; reflexivity. }
  { eexists; reflexivity. }
  destruct new as [|c2 [|c3 [|c4 new]]]; try discriminate Hlen.
  destruct (generate_loop_inv _ _ _ _ _ _ _ _ Hloop)
    as (gen & Hgen & _ & Hfor & _).
  apply app_inv_head in Hgen. subst gen.
  apply Forall_cons in Hfor as [Hc2 Hfor]. apply Forall_cons in Hfor as [Hc3 _].
  exists c1, c2, c3, g'.
  split; [|split; [reflexivity|split; [|split; [exact Hloop|split; assumption]]]].
  - unfold generate_korean_names. cbv zeta.
    rewrite (bind_step _ _ _ _ _ Hsn).
    destruct (decide _) as [_|Hn]; [|exfalso; apply Hn; split; assumption].
    assert (Hseed : (c <- pinned_candidate smith_entry ;; ret [c]) g = Ok ([c1], g))
      by (rewrite (bind_step _ _ _ _ _ Hpin); reflexivity).
    rewrite (bind_step _ _ _ _ _ Hseed).
    change (3 - length [c1]) with 2.
    change (default [py "밝음"; py "지혜"]
              (o_tags (default {| o_tags := None; o_gender := None |}
                         (Some {| o_tags := None; o_gender := None |}))))
      with [py "밝음"; py "지혜"].
    rewrite (bind_step _ _ _ _ _ Hloop). reflexivity.
  - injection Hpin as <-. reflexivity.
Qed.

Lemma C5_wilson_smith_pinned_first_witness :
  exists c1 c2 c3 g',
    generate_korean_names ascii_upper demo_syllables demo_surnames
      (py "WILSON") (py "SMITH") (Some {| o_tags := None; o_gender := None |}) demo_rng
    = Ok ([c1; c2; c3], g')
    /\ pinned_candidate smith_entry demo_rng = Ok (c1, demo_rng)
    /\ name_kr c1 = py "송월선"
    /\ generate_loop (group_by_tag demo_syllables) [py "밝음"; py "지혜"]
         smith_entry 2 [c1] demo_rng = Ok ([c1; c2; c3], g')
    /\ generated_for demo_syllables smith_entry c2
    /\ generated_for demo_syllables smith_entry c3.
Proof.
  apply (C5_wilson_smith_pinned_first ascii_upper demo_syllables demo_surnames demo_rng).
  - vm_compute. reflexivity.
  - vm_compute. reflexivity.
  - discriminate.
  - repeat constructor; vm_compute; eauto.
Defined.

Lemma pinned_smith_coherent g c g' :
  pinned_candidate smith_entry g = Ok (c, g') -> coherent c.
Proof.
  unfold pinned_candidate, smith_entry. cbn [getitem sn_hanja sn_korean].
  unfold bind, ret. intros [= <- _]. unfold coherent. cbv zeta.
  cbn [name_kr name_en hanja family_name given_name fam_korean fam_hanja fam_meaning].
  split; [vm_compute; reflexivity|]. split; [vm_compute; reflexivity|].
  split; vm_compute; reflexivity.
Qed.

(** X6. Every candidate returned by [generate_korean_names] is internally
    consistent and all of them share the surname resolved for the call:
    [name_kr] is the family name followed by the given syllables,
    [name_en] is [romanize_korean_name] of these two parts, [hanja] is the
    family hanja followed by the given hanja, and the family meaning is
    [get_surname_meaning] of the family hanja. This includes the
    pre-authored candidate. [str.upper] maps the empty string to itself. *)
Theorem generated_candidates_coherent
    (upper : pystr -> pystr) (SYLLABLES_DATA : list syllable)
    (SURNAMES_DATA : gmap pystr (list surname))
    (first_name last_name : pystr) (options : option opts)
    (g : rng) (candidates : list candidate) (g' : rng) :
  upper [] = [] ->
  generate_korean_names upper SYLLABLES_DATA SURNAMES_DATA
    first_name last_name options g = Ok (candidates, g') ->
  exists sn g1,
    get_korean_surname upper SURNAMES_DATA last_name g = Ok (sn, g1)
    /\ Forall (fun c => coherent c
                        /\ sn_korean sn = Some (fam_korean (family_name c))
                        /\ sn_hanja sn = Some (fam_hanja (family_name c)))
         candidates.
Proof.
  intros Hup H.
  apply generate_korean_names_inv in H
    as (sn & g1 & seed & gen & Hsn & -> & Hseed & _ & Hgen & _).
  exists sn, g1. split; [exact Hsn|]. apply Forall_app. split.
  - destruct Hseed as [(Hw & Hs & c0 & Hc0 & ->)|[_ ->]]; [|constructor].
    constructor; [|constructor].
    assert (Hne : last_name <> []).
    { intros ->. rewrite Hup in Hs. discriminate Hs. }
    rewrite (surname_of_smith upper SURNAMES_DATA last_name g Hne Hs) in Hsn.
    injection Hsn as <- <-.
    split; [eapply pinned_smith_coherent; eauto|].
    apply pinned_candidate_inv in Hc0 as (_ & ? & ?). auto.
  - eapply Forall_impl; [exact Hgen|].
    intros c (Hk & Hh & Hco & _). auto.
Qed.

Lemma generated_candidates_coherent_witness :
  exists cands g' sn g1,
    generate_korean_names ascii_upper demo_syllables demo_surnames
      (py "Wilson") (py "Smith") None demo_rng = Ok (cands, g')
    /\ get_korean_surname ascii_upper demo_surnames (py "Smith") demo_rng = Ok (sn, g1)
    /\ Forall (fun c => coherent c
                        /\ sn_korean sn = Some (fam_korean (family_name c))
                        /\ sn_hanja sn = Some (fam_hanja (family_name c)))
         cands.
Proof.
  destruct (generate_korean_names ascii_upper demo_syllables demo_surnames
              (py "Wilson") (py "Smith") None demo_rng) as [[cands g']|e] eqn:Hrun;
    [|vm_compute in Hrun; discriminate].
  destruct (generated_candidates_coherent ascii_upper _ _ _ _ _ _ _ _ eq_refl Hrun)
    as (sn & g1 & Hs & HF).
  exists cands, g', sn, g1. auto.
Defined.

(** X7. The result of [generate_korean_names] is the pre-authored
    candidate, present exactly when the upper-cased names are [WILSON] and
    [SMITH], followed by generated candidates. In each generated candidate
    the two [given_name] entries copy the syllable, hanja and meaning of
    entries of the syllable pool, and the summary is the sentence made of
    the two meanings: the generic fallback summary is never produced. *)
Theorem generated_candidates_from_pool
    (upper : pystr -> pystr) (SYLLABLES_DATA : list syllable)
    (SURNAMES_DATA : gmap pystr (list surname))
    (first_name last_name : pystr) (options : option opts)
    (g : rng) (candidates : list candidate) (g' : rng) :
  generate_korean_names upper SYLLABLES_DATA SURNAMES_DATA
    first_name last_name options g = Ok (candidates, g') ->
  exists sn g1 seed gen,
    get_korean_surname upper SURNAMES_DATA last_name g = Ok (sn, g1)
    /\ candidates = seed ++ gen
    /\ ((upper first_name = py "WILSON" /\ upper last_name = py "SMITH"
         /\ exists c0, pinned_candidate sn g1 = Ok (c0, g1) /\ seed = [c0])
        \/ (~ (upper first_name = py "WILSON" /\ upper last_name = py "SMITH")
            /\ seed = []))
    /\ Forall (fun c =>
                 summary_of_meanings c
                 /\ Forall (fun gv => exists s, s ∈ SYLLABLES_DATA /\ copies s gv)
                      (given_name c)) gen.
Proof.
  intros H.
  apply generate_korean_names_inv in H
    as (sn & g1 & seed & gen & Hsn & -> & Hseed & _ & Hgen & _).
  exists sn, g1, seed, gen. split; [exact Hsn|]. split; [reflexivity|].
  split; [exact Hseed|].
  eapply Forall_impl; [exact Hgen|]. intros c (_ & _ & _ & Hsum & Hgv). auto.
Qed.

Lemma generated_candidates_from_pool_witness :
  exists cands g' sn g1 seed gen,
    generate_korean_names ascii_upper demo_syllables demo_surnames
      (py "Ann") (py "Jones") None demo_rng = Ok (cands, g')
    /\ get_korean_surname ascii_upper demo_surnames (py "Jones") demo_rng = Ok (sn, g1)
    /\ cands = seed ++ gen
    /\ ((ascii_upper (py "Ann") = py "WILSON" /\ ascii_upper (py "Jones") = py "SMITH"
         /\ exists c0, pinned_candidate sn g1 = Ok (c0, g1) /\ seed = [c0])
        \/ (~ (ascii_upper (py "Ann") = py "WILSON"
               /\ ascii_upper (py "Jones") = py "SMITH")
            /\ seed = []))
    /\ Forall (fun c =>
                 summary_of_meanings c
                 /\ Forall (fun gv => exists s, s ∈ demo_syllables /\ copies s gv)
                      (given_name c)) gen.
Proof.
  destruct (generate_korean_names ascii_upper demo_syllables demo_surnames
              (py "Ann") (py "Jones") None demo_rng) as [[cands g']|e] eqn:Hrun;
    [|vm_compute in Hrun; discriminate].
  destruct (generated_candidates_from_pool _ _ _ _ _ _ _ _ _ Hrun)
    as (sn & g1 & seed & gen & H).
  exists cands, g', sn, g1, seed, gen. split; [reflexivity | exact H].
Defined.

(** X8. A call of [generate_korean_names] on at most [setsize] tags that
    returns has used between 8 and 19 random draws: at most one for the
    surname and between four and six for each generated candidate. *)
Theorem generate_korean_names_draws
    (upper : pystr -> pystr) (SYLLABLES_DATA : list syllable)
    (SURNAMES_DATA : gmap pystr (list surname))
    (first_name last_name : pystr) (options : option opts)
    (g : rng) (candidates : list candidate) (g' : rng) :
  length (effective_tags options) <= setsize ->
  generate_korean_names upper SYLLABLES_DATA SURNAMES_DATA
    first_name last_name options g = Ok (candidates, g') ->
  pos g + 8 <= pos g' <= pos g + 19.
Proof.
  intros _ H.
  apply generate_korean_names_inv in H
    as (sn & g1 & seed & gen & Hsn & -> & Hseed & Hlen & _ & Hpos).
  apply get_korean_surname_draws in Hsn.
  destruct Hseed as [(_ & _ & c0 & _ & ->)|[_ ->]]; simpl in Hlen; lia.
Qed.

Lemma generate_korean_names_draws_witness :
  exists cands g',
    generate_korean_names ascii_upper demo_syllables demo_surnames
      (py "Ann") (py "Jones") None demo_rng = Ok (cands, g')
    /\ pos demo_rng + 8 <= pos g' <= pos demo_rng + 19.
Proof.
  destruct (generate_korean_names ascii_upper demo_syllables demo_surnames
              (py "Ann") (py "Jones") None demo_rng) as [[cands g']|e] eqn:Hrun;
    [|vm_compute in Hrun; discriminate].
  exists cands, g'. split; [reflexivity|].
  assert (Hsize : length (effective_tags None) <= setsize) by (vm_compute; lia).
  exact (generate_korean_names_draws _ _ _ _ _ _ _ _ _ Hsize Hrun).
Defined.

(** X9. With an empty syllable table (what a failed load leaves),
    [generate_korean_names] returns for no input at all: every call
    raises. *)
Theorem generate_korean_names_empty_pool_raises
    (upper : pystr -> pystr) (SURNAMES_DATA : gmap pystr (list surname))
    (first_name last_name : pystr) (options : option opts) (g : rng) :
  exists e,
    generate_korean_names upper [] SURNAMES_DATA first_name last_name options g
    = Raise e.
Proof.
  destruct (generate_korean_names upper [] SURNAMES_DATA first_name last_name
              options g) as [[cands g']|e] eqn:H; [|eauto].
  exfalso.
  apply generate_korean_names_inv in H
    as (sn & g1 & seed & gen & _ & _ & Hseed & Hlen & Hgen & _).
  assert (Hge : 2 <= length gen).
  { destruct Hseed as [(_ & _ & c0 & _ & ->)|[_ ->]]; simpl in Hlen; lia. }
  destruct gen as [|c gen]; [simpl in Hge; lia|].
  apply Forall_cons in Hgen as [(_ & _ & _ & (g1' & g2' & Hgn & _) & Hgv) _].
  rewrite Hgn in Hgv. apply Forall_cons in Hgv as [(s & Hs & _) _].
  inversion Hs.
Qed.

(** ** Weighted selection as intervals *)










(** X12. Apart from the [SMITH] override, [get_korean_surname] looks at
    nothing but the upper-cased first character of a non-empty name: two
    such names with the same upper-cased initial get the same outcome from
    the same generator state. *)
Theorem surname_depends_on_initial_only
    (upper : pystr -> pystr) (SURNAMES_DATA : gmap pystr (list surname))
    (name1 name2 : pystr) (g : rng) :
  name1 <> [] -> name2 <> [] ->
  upper name1 <> py "SMITH" -> upper name2 <> py "SMITH" ->
  upper (take 1 name1) = upper (take 1 name2) ->
  get_korean_surname upper SURNAMES_DATA name1 g
  = get_korean_surname upper SURNAMES_DATA name2 g.
Proof.
  intros H1 H2 Hs1 Hs2 Hi. unfold get_korean_surname.
  destruct name1 as [|c1 r1]; [congruence|].
  destruct name2 as [|c2 r2]; [congruence|].
  change (upper [c1] = upper [c2]) in Hi.
  destruct (decide (upper (c1 :: r1) = py "SMITH")); [contradiction|].
  destruct (decide (upper (c2 :: r2) = py "SMITH")); [contradiction|].
  rewrite Hi. reflexivity.
Qed.

Lemma surname_depends_on_initial_only_witness :
  get_korean_surname ascii_upper demo_surnames (py "Jones") demo_rng
  = get_korean_surname ascii_upper demo_surnames (py "jackson") demo_rng.
Proof.
  apply (surname_depends_on_initial_only ascii_upper demo_surnames
           (py "Jones") (py "jackson") demo_rng).
  - vm_compute. discriminate.
  - vm_compute. discriminate.
  - vm_compute. discriminate.
  - vm_compute. discriminate.
  - vm_compute. reflexivity.
Defined.

(** ** Fortunes, inverted *)

Lemma filter_present_nil (FORTUNES_DATA : list (pystr * list pystr)) (tags : list pystr) :
  filter (fun tag => is_Some (alookup tag FORTUNES_DATA)) tags = [] ->
  Forall (fun tag => alookup tag FORTUNES_DATA = None) tags.
Proof.
  induction tags as [|t tags IH]; [constructor|].
  rewrite filter_cons. destruct (decide _) as [Hs|Hn]; [discriminate|].
  intros H. constructor; [|exact (IH H)].
  destruct (alookup t FORTUNES_DATA) eqn:E; [|reflexivity].
  exfalso. apply Hn. eauto.
Qed.

(** The list [random.choice] draws the tag from. *)
Lemma available_tags_spec (FORTUNES_DATA : list (pystr * list pystr))
    (tags : list pystr) (tag : pystr) :
  tag ∈ match filter (fun tag => is_Some (alookup tag FORTUNES_DATA)) tags with
        | [] => keys FORTUNES_DATA
        | _ => filter (fun tag => is_Some (alookup tag FORTUNES_DATA)) tags
        end ->
  is_Some (alookup tag FORTUNES_DATA)
  /\ (tag ∈ tags \/ Forall (fun t => alookup t FORTUNES_DATA = None) tags).
Proof.
  destruct (filter _ tags) as [|t0 l] eqn:Hf.
  - intros Hin. split; [now apply alookup_key|]. right. now apply filter_present_nil.
  - intros Hin. rewrite <- Hf in Hin.
    apply list_elem_of_filter in Hin as [Hs Hin]. auto.
Qed.

(** X13. Whenever [generate_fortune] returns: [date] is the caller's date,
    or the clock's date when none was passed; [deeper_look] is a message
    of a tag of the table, and that tag is one of the caller's tags unless
    none of them is in the table; [cosmic_cookie] and [lucky_snack] come
    from the two fixed lists; exactly four draws are used. *)
Theorem generate_fortune_result
    (FORTUNES_DATA : list (pystr * list pystr)) (tags : list pystr)
    (d : option pystr) (today : pystr) (g : rng) (r : fortune) (g' : rng) :
  generate_fortune FORTUNES_DATA tags d today g = Ok (r, g') ->
  date r = default today d
  /\ (exists tag messages,
        alookup tag FORTUNES_DATA = Some messages
        /\ deeper_look r ∈ messages
        /\ (tag ∈ tags \/ Forall (fun t => alookup t FORTUNES_DATA = None) tags))
  /\ cosmic_cookie r ∈ cosmic_cookies
  /\ lucky_snack r ∈ lucky_snacks
  /\ pos g' = pos g + 4.
Proof.
  unfold generate_fortune. cbv zeta. intros H.
  inv_bind H. rename a into tag. inv_bind H. rename a into messages.
  inv_bind H. inv_bind H. inv_bind H. apply ret_ok in H as [-> ->].
  apply choice_inv in E as [Htag ->]. apply getitem_inv in E0 as [Hm ->].
  apply choice_inv in E1 as [Hd ->]. apply choice_inv in E2 as [Hc ->].
  apply choice_inv in E3 as [Hs ->].
  apply available_tags_spec in Htag as [_ Hsrc].
  cbn [date deeper_look cosmic_cookie lucky_snack].
  split; [reflexivity|]. split; [exists tag, messages; auto|].
  split; [exact Hc|]. split; [exact Hs|]. simpl. lia.
Qed.

Lemma generate_fortune_result_witness :
  exists r g',
    generate_fortune demo_fortunes [py "지혜"; py "nonexistent_tag"] None
      (py "2026/11/04") demo_rng = Ok (r, g')
    /\ date r = default (py "2026/11/04") None
    /\ (exists tag messages,
          alookup tag demo_fortunes = Some messages
          /\ deeper_look r ∈ messages
          /\ (tag ∈ [py "지혜"; py "nonexistent_tag"]
              \/ Forall (fun t => alookup t demo_fortunes = None)
                   [py "지혜"; py "nonexistent_tag"]))
    /\ cosmic_cookie r ∈ cosmic_cookies
    /\ lucky_snack r ∈ lucky_snacks
    /\ pos g' = pos demo_rng + 4.
Proof.
  destruct (generate_fortune demo_fortunes [py "지혜"; py "nonexistent_tag"] None
              (py "2026/11/04") demo_rng) as [[r g']|e] eqn:Hrun;
    [|vm_compute in Hrun; discriminate].
  exists r, g'. split; [reflexivity|].
  exact (generate_fortune_result _ _ _ _ _ _ _ Hrun).
Defined.

Lemma generate_fortune_raise_inv
    (FORTUNES_DATA : list (pystr * list pystr)) (tags : list pystr)
    (d : option pystr) (today : pystr) (g : rng) (e : exn) :
  generate_fortune FORTUNES_DATA tags d today g = Raise e ->
  e = IndexError
  /\ (FORTUNES_DATA = []
      \/ exists tag, alookup tag FORTUNES_DATA = Some []).
Proof.
  unfold generate_fortune. cbv zeta.
  set (available := match filter _ tags with [] => keys FORTUNES_DATA | _ => _ end).
  intros H.
  destruct (decide (available = [])) as [Hav|Hav].
  - rewrite Hav in H. injection H as <-. split; [reflexivity|]. left.
    unfold available in Hav. destruct (filter _ tags) eqn:Hf; [|discriminate].
    destruct FORTUNES_DATA; [reflexivity | discriminate].
  - destruct (choice_ok available g Hav) as (tag & Htag & Hin & _).
    rewrite (bind_step _ _ _ _ _ Htag) in H.
    apply available_tags_spec in Hin as [[messages Hm] _].
    rewrite Hm in H. unfold getitem in H. unfold bind at 1, ret at 1 in H.
    destruct (decide (messages = [])) as [->|Hmne].
    + injection H as <-. split; [reflexivity|]. right.
      exists tag. exact Hm.
    + exfalso.
      destruct (choice_ok messages (advance g) Hmne) as (m & Hmc & _ & _).
      destruct (choice_ok cosmic_cookies (advance (advance g)))
        as (ck & Hck & _ & _); [discriminate|].
      destruct (choice_ok lucky_snacks (advance (advance (advance g))))
        as (sk & Hsk & _ & _); [discriminate|].
      rewrite (bind_step _ _ _ _ _ Hmc), (bind_step _ _ _ _ _ Hck),
        (bind_step _ _ _ _ _ Hsk) in H. discriminate H.
Qed.

(** X14. [generate_fortune] can only fail with [IndexError] (never with
    [KeyError]), and only because the fortune table is empty or holds a tag
    with an empty message list. Conversely an empty table makes every call
    fail, and a tag with an empty message list makes the call for that tag
    fail. *)
Theorem generate_fortune_failure_modes
    (FORTUNES_DATA : list (pystr * list pystr))
    (d : option pystr) (today : pystr) (g : rng) :
  (forall tags e,
      generate_fortune FORTUNES_DATA tags d today g = Raise e ->
      e = IndexError
      /\ (FORTUNES_DATA = [] \/ exists tag, alookup tag FORTUNES_DATA = Some []))
  /\ (FORTUNES_DATA = [] ->
      forall tags, generate_fortune FORTUNES_DATA tags d today g = Raise IndexError)
  /\ (forall tag,
        alookup tag FORTUNES_DATA = Some [] ->
        generate_fortune FORTUNES_DATA [tag] d today g = Raise IndexError).
Proof.
  split; [|split].
  - intros tags e H. now apply generate_fortune_raise_inv in H.
  - intros -> tags. unfold generate_fortune. cbv zeta.
    rewrite filter_absent; [reflexivity|].
    rewrite Forall_forall. reflexivity.
  - intros tag Hm. unfold generate_fortune. cbv zeta.
    rewrite filter_cons, filter_nil.
    destruct (decide (is_Some (alookup tag FORTUNES_DATA))) as [_|Hn];
      [|exfalso; apply Hn; eauto].
    destruct (choice_ok [tag] g ltac:(discriminate)) as (t & Ht & Hin & _).
    apply list_elem_of_singleton in Hin. subst t.
    rewrite (bind_step _ _ _ _ _ Ht), Hm. reflexivity.
Qed.

Lemma generate_fortune_failure_modes_witness :
  generate_fortune [(py "밝음", [])] [py "밝음"] None (py "2026/11/04") demo_rng
  = Raise IndexError.
Proof.
  destruct (generate_fortune_failure_modes [(py "밝음", [])] None
              (py "2026/11/04") demo_rng) as (_ & _ & H).
  apply H. vm_compute. reflexivity.
Defined.

(** X15. When the fortune table has at least one tag and every tag has at
    least one message, [generate_fortune] returns for every tag list,
    every date argument and every generator state. *)
Theorem generate_fortune_total
    (FORTUNES_DATA : list (pystr * list pystr)) (tags : list pystr)
    (d : option pystr) (today : pystr) (g : rng) :
  fortunes_wf FORTUNES_DATA ->
  exists r g', generate_fortune FORTUNES_DATA tags d today g = Ok (r, g').
Proof.
  intros [Hne Hmsgs].
  destruct (generate_fortune FORTUNES_DATA tags d today g) as [[r g']|e] eqn:H;
    [eauto|].
  exfalso. apply generate_fortune_raise_inv in H as [_ [Hempty|[tag Htag]]].
  - contradiction.
  - apply alookup_elem in Htag.
    rewrite Forall_forall in Hmsgs. apply (Hmsgs _ Htag). reflexivity.
Qed.

Lemma generate_fortune_total_witness :
  exists r g',
    generate_fortune demo_fortunes [py "지혜"; py "밝음"; py "지혜"] None
      (py "2026/11/04") demo_rng = Ok (r, g').
Proof.
  apply (generate_fortune_total demo_fortunes [py "지혜"; py "밝음"; py "지혜"]
           None (py "2026/11/04") demo_rng).
  split; [discriminate|]. repeat constructor; discriminate.
Defined.

(** ** Port search *)

Lemma scan_ports_spec (try_bind : N -> bool) (n : nat) : forall port : N,
  (port + N.of_nat n <= 65536)%N ->
  match scan_ports try_bind port n with
  | Some (Port p) =>
      (port <= p < port + N.of_nat n)%N /\ try_bind p = true
      /\ forall q, (port <= q < p)%N -> try_bind q = false
  | Some Overflow => False
  | None => forall q, (port <= q < port + N.of_nat n)%N -> try_bind q = false
  end.
Proof.
  induction n as [|n IH]; intros port Hb; cbn [scan_ports].
  - intros q Hq. lia.
  - destruct (N.ltb_spec 65535 port) as [Hov|_]; [lia|].
    destruct (try_bind port) eqn:Hp.
    + split; [lia|]. split; [exact Hp|]. intros q Hq. lia.
    + specialize (IH (port + 1)%N ltac:(lia)).
      destruct (scan_ports try_bind (port + 1) n) as [[p|]|].
      * destruct IH as (Hr & Hpb & Hlow). split; [lia|]. split; [exact Hpb|].
        intros q Hq. destruct (N.eq_dec q port) as [->|Hne]; [exact Hp|].
        apply Hlow. lia.
      * exact IH.
      * intros q Hq. destruct (N.eq_dec q port) as [->|Hne]; [exact Hp|].
        apply IH. lia.
Qed.

(** X16. For a range within the valid ports, [find_free_port] returns the
    lowest port of [start_port .. max_port] on which [bind] succeeds; when
    [bind] fails on every port of the range (or the range is empty) it
    returns [start_port] all the same, a port it has just found busy. *)
Theorem find_free_port_lowest_or_start
    (try_bind : N -> bool) (start_port max_port : N) :
  (max_port <= 65535)%N ->
  exists p,
    find_free_port try_bind start_port max_port = Port p
    /\ (((start_port <= p <= max_port)%N /\ try_bind p = true
         /\ forall q, (start_port <= q < p)%N -> try_bind q = false)
        \/ (p = start_port
            /\ forall q, (start_port <= q <= max_port)%N -> try_bind q = false)).
Proof.
  intros Hmax. unfold find_free_port.
  destruct (N.le_gt_cases start_port max_port) as [Hle|Hgt].
  2:{ replace (max_port + 1 - start_port)%N with 0%N by lia. cbn [N.to_nat scan_ports].
      exists start_port. split; [reflexivity|]. right. split; [reflexivity|].
      intros q Hq. lia. }
  pose proof (scan_ports_spec try_bind
                (N.to_nat (max_port + 1 - start_port)) start_port) as H.
  rewrite N2Nat.id in H. specialize (H ltac:(lia)).
  destruct (scan_ports try_bind start_port _) as [[p|]|].
  - exists p. split; [reflexivity|]. left.
    destruct H as (Hr & Hb & Hlow). split; [lia|]. split; [exact Hb | exact Hlow].
  - contradiction.
  - exists start_port. split; [reflexivity|]. right. split; [reflexivity|].
    intros q Hq. apply H. lia.
Qed.

Lemma find_free_port_lowest_or_start_witness :
  exists p,
    find_free_port (fun q => (3002 <=? q)%N) 3000 3005 = Port p
    /\ (((3000 <= p <= 3005)%N /\ (3002 <=? p)%N = true
         /\ forall q, (3000 <= q < p)%N -> (3002 <=? q)%N = false)
        \/ (p = 3000%N
            /\ forall q, (3000 <= q <= 3005)%N -> (3002 <=? q)%N = false)).
Proof.
  apply (find_free_port_lowest_or_start (fun q => (3002 <=? q)%N) 3000 3005).
  vm_compute. discriminate.
Defined.

(** ** Romanization of names covered by the tables *)

Lemma romanization_map_clean : map_Forall (fun _ v => clean_part v) romanization_map.
Proof.
  apply map_Forall_to_list. apply (bool_decide_unpack _). vm_compute. exact I.
Qed.

Lemma given_romanization_clean :
  map_Forall (fun _ v => clean_part v) given_romanization.
Proof.
  apply map_Forall_to_list. apply (bool_decide_unpack _). vm_compute. exact I.
Qed.

Lemma clean_part_display v : clean_part v -> Forall display_char v.
Proof.
  intros [_ Hl]. rewrite forallb_forall in Hl. rewrite Forall_forall.
  intros c Hc. left. apply Hl. now apply list_elem_of_In.
Qed.

Lemma join_hyphen_display (parts : list pystr) :
  Forall clean_part parts -> Forall display_char (join [45%N] parts).
Proof.
  induction 1 as [|p rest Hp Hrest IH]; [constructor|].
  destruct rest as [|q rest]; cbn [join].
  - now apply clean_part_display.
  - apply Forall_app. split; [now apply clean_part_display|].
    apply Forall_app. split; [|exact IH].
    constructor; [right; right; reflexivity | constructor].
Qed.

(** X17. For a surname found in the surname romanization table and a given
    name whose characters are all in the given-name table, the romanized
    name is plain ASCII of the form [Surname Part-Part]: a non-empty run of
    letters, one space, and one non-empty run of letters per character of
    the given name, separated by hyphens. *)
Theorem romanize_covered_name_is_ascii (surname given_name : pystr) :
  is_Some (romanization_map !! surname) ->
  Forall (fun c => is_Some (given_romanization !! [c])) given_name ->
  exists surname_roman given_parts,
    romanize_korean_name surname given_name
    = surname_roman ++ [32%N] ++ join [45%N] given_parts
    /\ clean_part surname_roman
    /\ length given_parts = length given_name
    /\ Forall clean_part given_parts
    /\ Forall display_char (romanize_korean_name surname given_name).
Proof.
  intros [sr Hsr] Hgiven.
  assert (Hclean : clean_part sr)
    by exact (map_Forall_lookup_1 _ _ _ _ romanization_map_clean Hsr).
  assert (Hparts : Forall clean_part (map romanize_char given_name)).
  { induction Hgiven as [|c l [v Hv] _ IH]; [constructor|].
    cbn [map]. constructor; [|exact IH].
    assert (Hrc : romanize_char c = v)
      by exact (f_equal (default [c]) Hv).
    rewrite Hrc. exact (map_Forall_lookup_1 _ _ _ _ given_romanization_clean Hv). }
  assert (Heq : romanize_korean_name surname given_name
                = sr ++ [32%N] ++ join [45%N] (map romanize_char given_name)).
  { unfold romanize_korean_name. rewrite Hsr. reflexivity. }
  exists sr, (map romanize_char given_name).
  split; [exact Heq|]. split; [exact Hclean|].
  split; [apply length_map|]. split; [exact Hparts|].
  rewrite Heq. apply Forall_app. split; [now apply clean_part_display|].
  apply Forall_app. split; [|now apply join_hyphen_display].
  constructor; [right; left; reflexivity | constructor].
Qed.

Lemma romanize_covered_name_is_ascii_witness :
  exists surname_roman given_parts,
    romanize_korean_name (py "김") (py "지현")
    = surname_roman ++ [32%N] ++ join [45%N] given_parts
    /\ clean_part surname_roman
    /\ length given_parts = length (py "지현")
    /\ Forall clean_part given_parts
    /\ Forall display_char (romanize_korean_name (py "김") (py "지현")).
Proof.
  apply (romanize_covered_name_is_ascii (py "김") (py "지현")).
  - vm_compute. eauto.
  - apply (bool_decide_unpack _). vm_compute. exact I.
Defined.

(** ** When the engine fails, and when it cannot *)

Lemma weighted_select_total (surname_options : list surname) g :
  surname_options <> [] ->
  exists s, weighted_select surname_options g = Ok (s, advance g).
Proof.
  intros Hne.
  set (rand := (0 + (sum_weights (surname_weights surname_options) - 0)
                    * unit_draw g)%Q).
  assert (Hsel : weighted_select surname_options g
                 = weighted_pick surname_options rand (advance g)) by reflexivity.
  rewrite Hsel. unfold weighted_pick.
  destruct (weighted_walk _ _ _) as [s|]; [eauto|].
  destruct surname_options as [|s0 rest]; [congruence|]. eauto.
Qed.

Lemma weighted_select_empty g : weighted_select [] g = Raise IndexError.
Proof. reflexivity. Qed.

(** X18. The exceptions of [get_korean_surname] are exactly these: for a
    non-empty name other than [SMITH] whose initial has no list while the
    table has no [DEFAULT] list either, [TypeError] (iteration over
    [None]); and [IndexError] when the list to select from is empty. In
    every other case it returns. *)
Theorem get_korean_surname_failure_modes
    (upper : pystr -> pystr) (SURNAMES_DATA : gmap pystr (list surname))
    (last_name : pystr) (g : rng) :
  match get_korean_surname upper SURNAMES_DATA last_name g with
  | Raise e =>
      (e = TypeError /\ last_name <> [] /\ upper last_name <> py "SMITH"
       /\ options_for upper SURNAMES_DATA last_name = None)
      \/ (e = IndexError /\ last_name <> [] /\ upper last_name <> py "SMITH"
          /\ options_for upper SURNAMES_DATA last_name = Some [])
      \/ (e = IndexError /\ last_name = []
          /\ SURNAMES_DATA !! py "DEFAULT" = Some [])
  | Ok (sn, g1) =>
      last_name = [] /\ SURNAMES_DATA !! py "DEFAULT" <> Some []
      \/ last_name <> [] /\ upper last_name = py "SMITH"
      \/ exists surname_options,
           options_for upper SURNAMES_DATA last_name = Some surname_options
           /\ surname_options <> []
  end.
Proof.
  unfold get_korean_surname, options_for.
  destruct last_name as [|c rest].
  - destruct (SURNAMES_DATA !! py "DEFAULT") as [[|s0 l]|] eqn:Hd.
    + cbn [from_option id]. right. right. auto.
    + destruct (choice_ok (s0 :: l) g ltac:(discriminate)) as (x & Hx & _).
      cbn [from_option id]. rewrite Hx. left. split; [reflexivity | discriminate].
    + destruct (choice_ok builtin_default g ltac:(discriminate)) as (x & Hx & _).
      cbn [from_option id]. rewrite Hx. left. split; [reflexivity | discriminate].
  - destruct (decide (upper (c :: rest) = py "SMITH")) as [Hs|Hs].
    + cbn [ret]. right. left. split; [discriminate | exact Hs].
    + assert (Hcases : forall o : option (list surname),
                match (match o with
                       | Some surname_options => weighted_select surname_options
                       | None => raise TypeError
                       end) g with
                | Raise e =>
                    (e = TypeError /\ c :: rest <> [] /\ upper (c :: rest) <> py "SMITH"
                     /\ o = None)
                    \/ (e = IndexError /\ c :: rest <> []
                        /\ upper (c :: rest) <> py "SMITH" /\ o = Some [])
                    \/ (e = IndexError /\ c :: rest = []
                        /\ SURNAMES_DATA !! py "DEFAULT" = Some [])
                | Ok (sn, g1) =>
                    c :: rest = [] /\ SURNAMES_DATA !! py "DEFAULT" <> Some []
                    \/ c :: rest <> [] /\ upper (c :: rest) = py "SMITH"
                    \/ exists surname_options,
                         o = Some surname_options /\ surname_options <> []
                end).
      { intros [[|s0 l]|].
        - rewrite weighted_select_empty. right. left.
          split; [reflexivity|]. split; [discriminate|]. auto.
        - destruct (weighted_select_total (s0 :: l) g ltac:(discriminate)) as (x & Hx).
          rewrite Hx. right. right. exists (s0 :: l). split; [reflexivity | discriminate].
        - cbn [raise]. left. split; [reflexivity|]. split; [discriminate|]. auto. }
      destruct (SURNAMES_DATA !! upper [c]) as [l|];
        [exact (Hcases (Some l)) | exact (Hcases (SURNAMES_DATA !! py "DEFAULT"))].
Qed.

(** X19. [generate_korean_names] returns whenever the syllable table is
    non-empty, each of its entries has the [syllable], [hanja] and
    [meaning] keys, and the surname resolved for the call has the [korean]
    and [hanja] keys: for every names, options and tag list, including
    tags that are not in the table. *)
Theorem generate_korean_names_total
    (upper : pystr -> pystr) (SYLLABLES_DATA : list syllable)
    (SURNAMES_DATA : gmap pystr (list surname))
    (first_name last_name : pystr) (options : option opts)
    (g : rng) (sn : surname) (g1 : rng) :
  SYLLABLES_DATA <> [] ->
  Forall syllable_wf SYLLABLES_DATA ->
  get_korean_surname upper SURNAMES_DATA last_name g = Ok (sn, g1) ->
  is_Some (sn_korean sn) -> is_Some (sn_hanja sn) ->
  exists candidates g',
    generate_korean_names upper SYLLABLES_DATA SURNAMES_DATA
      first_name last_name options g = Ok (candidates, g').
Proof.
  intros Hne Hwf Hsn [k Hk] [h Hh].
  unfold generate_korean_names. cbv zeta.
  rewrite (bind_step _ _ _ _ _ Hsn).
  set (tags := default [py "밝음"; py "지혜"] (o_tags _)).
  assert (Hseed : exists seed,
            (if decide (upper first_name = py "WILSON" /\ upper last_name = py "SMITH")
             then c <- pinned_candidate sn ;; ret [c]
             else ret []) g1 = Ok (seed, g1)).
  { destruct (decide _); [|eexists; reflexivity].
    unfold pinned_candidate. rewrite Hk, Hh. eexists. reflexivity. }
  destruct Hseed as (seed & Hseed). rewrite (bind_step _ _ _ _ _ Hseed).
  destruct (generate_loop_total (group_by_tag SYLLABLES_DATA) tags sn
              (3 - length seed) seed g1) as (new & g' & Hloop & _).
  { now apply group_by_tag_nonempty. }
  { now apply group_by_tag_ok. }
  { eauto. }
  { eauto. }
  rewrite (bind_step _ _ _ _ _ Hloop). eexists. eexists. reflexivity.
Qed.

Lemma generate_korean_names_total_witness :
  exists candidates g',
    generate_korean_names ascii_upper demo_syllables demo_surnames
      (py "Ann") (py "Jones")
      (Some {| o_tags := Some [py "nonexistent_tag"]; o_gender := None |}) demo_rng
    = Ok (candidates, g').
Proof.
  apply (generate_korean_names_total ascii_upper demo_syllables demo_surnames
           (py "Ann") (py "Jones")
           (Some {| o_tags := Some [py "nonexistent_tag"]; o_gender := None |})
           demo_rng jung (advance demo_rng)).
  - discriminate.
  - repeat constructor; vm_compute; eauto.
  - vm_compute. reflexivity.
  - vm_compute. eauto.
  - vm_compute. eauto.
Defined.
